(** * Frequency analysis: normalisation and scaling of GitHub statistics

    A shallow embedding of [process_data] and [plot_data] from
    [src/python/frequency_analysis/frequency_analysis.py].

    Conventions of the embedding.
    - A pandas [DataFrame] is a list of rows; a column is the projection of
      the rows on one field, and a column assignment is a map over the rows.
    - Integer columns have dtype int64: values live in [Z] and the two
      operations that can overflow ([abs] and unary minus) have their
      wrap-around written out.
    - A Python exception is a value of [exn]; a computation that may raise
      returns a [result].
    - A float64 is an exact rational or one of the three special values;
      rounding to binary64 and the sign of zero are not represented. *)

From Stdlib Require Import String Ascii ZArith QArith Qabs Bool Lia Permutation List.
Import ListNotations.

#[local] Open Scope string_scope.
#[local] Open Scope Z_scope.

(** ** Exceptions and results *)

Inductive exn : Type :=
| KeyError (key : string)
| TypeError
| ValueError
| OutOfBoundsDatetime.

Inductive result (A : Type) : Type :=
| Ok (a : A)
| Raise (e : exn).

Arguments Ok {A} a.
Arguments Raise {A} e.

Definition bind {A B} (m : result A) (k : A -> result B) : result B :=
  match m with
  | Ok a => k a
  | Raise e => Raise e
  end.

Notation "x <- m ;; k" := (bind m (fun x => k))
  (at level 61, m at next level, right associativity).

Fixpoint mapM {A B} (f : A -> result B) (l : list A) : result (list B) :=
  match l with
  | [] => Ok []
  | a :: l' => b <- f a ;; bs <- mapM f l' ;; Ok (b :: bs)
  end.

(** ** int64 columns *)

Module Int64.

Definition min_int : Z := - 2 ^ 63.
Definition max_int : Z := 2 ^ 63 - 1.

Definition in_range (z : Z) : Prop := min_int <= z <= max_int.

Definition wrap (z : Z) : Z := (z + 2 ^ 63) mod 2 ^ 64 - 2 ^ 63.

(** [Series.abs()] and unary minus on an int64 column. *)
Definition abs (z : Z) : Z := wrap (Z.abs z).
Definition neg (z : Z) : Z := wrap (- z).

End Int64.

(** ** Timestamps: [pd.to_datetime(column, unit="s")] *)

Inductive Timestamp : Type := Datetime (ns : Z).

Definition datetime_min_s : Z := -9223372036.
Definition datetime_max_s : Z := 9223372036.

Definition valid_epoch (s : Z) : Prop := datetime_min_s <= s <= datetime_max_s.

(** The instant of an epoch-seconds value, in nanoseconds. *)
Definition datetime_of (s : Z) : Timestamp := Datetime (s * 10 ^ 9).

(** One element: datetime64[ns] holds the nanoseconds in an int64, and a
    value that does not fit raises. *)
Definition to_datetime_value (s : Z) : result Timestamp :=
  if (datetime_min_s <=? s) && (s <=? datetime_max_s)
  then Ok (datetime_of s)
  else Raise OutOfBoundsDatetime.

Definition to_datetime (col : list Z) : result (list Timestamp) :=
  mapM to_datetime_value col.

(** ** Payloads *)

(** One code-frequency record: [[epoch_seconds, additions, deletions]].
    Records are taken with their three fields present. *)
Definition churn_record : Type := Z * Z * Z.

(** One weekly entry of a contributor: [{"w": ..., "c": ...}], taken with
    both keys present; the other keys of an entry are dropped by the
    column selection of line 109. *)
Record week_entry : Type := { week_w : Z; week_c : Z }.

(** The value under the key ["author"] of a contributor record. *)
Inductive author_field : Type :=
| AuthorAbsent
| AuthorNull
| AuthorObj (login : option string).

(** A contributor record; [None] is an absent key. *)
Record contributor : Type :=
  { author : author_field;
    weeks : option (list week_entry) }.

(** ** Normalised tables *)

Record WeeklyChurnSample : Type :=
  { timestamp : Timestamp;
    additions : Z;
    deletions : Z }.

Record ContributorWeekSample : Type :=
  { cw_timestamp : Timestamp;
    commits : Z;
    cw_author : string }.

(** ** [process_data] *)

(** Lines 97 to 99: the code-frequency frame. *)
Definition process_code_frequency (code_freq : list churn_record)
  : result (list WeeklyChurnSample) :=
  ts <- to_datetime (map (fun r : churn_record => fst (fst r)) code_freq) ;;
  Ok (map (fun tr : Timestamp * churn_record =>
             {| timestamp := fst tr;
                additions := snd (fst (snd tr));
                deletions := Int64.neg (Int64.abs (snd (snd tr))) |})
          (combine ts code_freq)).

(** [contributor["author"]["login"]] *)
Definition get_login (r : contributor) : result string :=
  match author r with
  | AuthorAbsent => Raise (KeyError "author")
  | AuthorNull => Raise TypeError
  | AuthorObj None => Raise (KeyError "login")
  | AuthorObj (Some s) => Ok s
  end.

(** [contributor["weeks"]] *)
Definition get_weeks (r : contributor) : result (list week_entry) :=
  match weeks r with
  | None => Raise (KeyError "weeks")
  | Some ws => Ok ws
  end.

(** Lines 106 to 109. [pd.DataFrame([])] has no columns at all, so the
    lookup [weekly_data["w"]] raises on an empty list of weeks. *)
Definition weekly_frame (name : string) (ws : list week_entry)
  : result (list ContributorWeekSample) :=
  match ws with
  | [] => Raise (KeyError "w")
  | _ :: _ =>
      ts <- to_datetime (map week_w ws) ;;
      Ok (map (fun tw : Timestamp * week_entry =>
                 {| cw_timestamp := fst tw;
                    commits := week_c (snd tw);
                    cw_author := name |})
              (combine ts ws))
  end.

(** The body of the loop, lines 104 to 109. *)
Definition contributor_frame (r : contributor)
  : result (list ContributorWeekSample) :=
  name <- get_login r ;;
  ws <- get_weeks r ;;
  weekly_frame name ws.

(** The loop of lines 103 to 109, with its accumulator. *)
Fixpoint collect_frames (activity : list contributor)
    (contributors_data : list (list ContributorWeekSample))
  : result (list (list ContributorWeekSample)) :=
  match activity with
  | [] => Ok contributors_data
  | r :: rest =>
      frame <- contributor_frame r ;;
      collect_frames rest (contributors_data ++ [frame])
  end.

(** [pd.concat(frames, ignore_index=True)] *)
Definition pd_concat {A} (frames : list (list A)) : result (list A) :=
  match frames with
  | [] => Raise ValueError
  | _ :: _ => Ok (concat frames)
  end.

(** Lines 102 to 111: the commit-activity frame. *)
Definition process_commit_activity (activity : list contributor)
  : result (list ContributorWeekSample) :=
  contributors_data <- collect_frames activity [] ;;
  pd_concat contributors_data.

Definition process_data (code_freq : list churn_record)
    (activity : list contributor)
  : result (list WeeklyChurnSample * list ContributorWeekSample) :=
  code_dataframe <- process_code_frequency code_freq ;;
  commit_dataframe <- process_commit_activity activity ;;
  Ok (code_dataframe, commit_dataframe).

(** ** Scalars of [plot_data] *)

Inductive float64 : Type :=
| Finite (q : Q)
| PInf
| NInf
| NaN.

(** What an expression of [plot_data] evaluates to: a numpy int64, a Python
    int (the literal [1]) or a float64. *)
Inductive scalar : Type :=
| NpInt (z : Z)
| PyInt (z : Z)
| NpFloat (f : float64).

Definition float_sgn (x : float64) : Z :=
  match x with
  | Finite q => Z.sgn (Qnum q)
  | PInf => 1
  | NInf => -1
  | NaN => 0
  end.

Definition signed_inf (s : Z) : float64 :=
  match s with
  | Z0 => NaN
  | Zpos _ => PInf
  | Zneg _ => NInf
  end.

(** IEEE division with the default numpy error state: a division by zero
    warns and yields an infinity or NaN, it does not raise. *)
Definition float_div (x y : float64) : float64 :=
  match x, y with
  | NaN, _ | _, NaN => NaN
  | Finite a, Finite b =>
      if Qnum b =? 0 then signed_inf (float_sgn x) else Finite (a / b)
  | Finite _, _ => Finite 0
  | _, Finite b =>
      signed_inf (float_sgn x * (if Qnum b <? 0 then -1 else 1))
  | _, _ => NaN
  end.

Definition float_mul (x y : float64) : float64 :=
  match x, y with
  | NaN, _ | _, NaN => NaN
  | Finite a, Finite b => Finite (a * b)
  | _, _ => signed_inf (float_sgn x * float_sgn y)
  end.

Definition float_ltb (x y : float64) : bool :=
  match x, y with
  | NaN, _ | _, NaN => false
  | Finite a, Finite b => negb (Qle_bool b a)
  | _, NInf | PInf, _ => false
  | NInf, _ | _, PInf => true
  end.

Definition float_abs (x : float64) : float64 :=
  match x with
  | Finite q => Finite (Qabs q)
  | PInf | NInf => PInf
  | NaN => NaN
  end.

Definition to_float (s : scalar) : float64 :=
  match s with
  | NpInt z | PyInt z => Finite (inject_Z z)
  | NpFloat f => f
  end.

(** Truth value of a scalar: zero is false, NaN is true. *)
Definition truthy (s : scalar) : bool :=
  match s with
  | NpInt z | PyInt z => negb (z =? 0)
  | NpFloat (Finite q) => negb (Qnum q =? 0)
  | NpFloat _ => true
  end.

(** [a or b] *)
Definition py_or (a b : scalar) : scalar := if truthy a then a else b.

(** [a > b] *)
Definition py_gt (a b : scalar) : bool :=
  match a, b with
  | (NpInt x | PyInt x), (NpInt y | PyInt y) => y <? x
  | _, _ => float_ltb (to_float b) (to_float a)
  end.

(** The builtin [max(a, b)]: the first argument stays unless the second
    compares greater. *)
Definition py_max (a b : scalar) : scalar := if py_gt b a then b else a.

(** The builtin [abs]. *)
Definition py_abs (s : scalar) : scalar :=
  match s with
  | NpInt z => NpInt (Int64.abs z)
  | PyInt z => PyInt (Z.abs z)
  | NpFloat f => NpFloat (float_abs f)
  end.

(** [a / b], true division: always a float64 here. *)
Definition truediv (a b : scalar) : float64 :=
  float_div (to_float a) (to_float b).

(** [Series.max()] and [Series.min()]: NaN on an empty column. *)
Definition series_max (col : list Z) : scalar :=
  match col with
  | [] => NpFloat NaN
  | z :: rest => NpInt (fold_left Z.max rest z)
  end.

Definition series_min (col : list Z) : scalar :=
  match col with
  | [] => NpFloat NaN
  | z :: rest => NpInt (fold_left Z.min rest z)
  end.

(** A column of a trace: an integer column as it is, or one multiplied by
    a float. *)
Inductive series : Type :=
| IntSeries (col : list Z)
| FloatSeries (col : list float64).

(** [column * scaling_factor] *)
Definition mul_series (col : list Z) (k : float64) : series :=
  FloatSeries (map (fun z => float_mul (Finite (inject_Z z)) k) col).

(** [Series.unique()]: the distinct values in order of first appearance. *)
Fixpoint unique (l : list string) : list string :=
  match l with
  | [] => []
  | a :: rest => a :: filter (fun b => negb (b =? a)%string) (unique rest)
  end.

(** ** Figures *)

Record Line : Type :=
  { color : option string;
    dash : option string;
    width : option Q }.

Record Scatter : Type :=
  { x : list Timestamp;
    y : series;
    mode : string;
    fill : option string;
    line : Line;
    name : string;
    opacity : option Q }.

Record Legend : Type :=
  { orientation : string;
    yanchor : string;
    legend_y : Q;
    xanchor : string;
    legend_x : Q }.

Record Margin : Type := { margin_l : Z; margin_r : Z; margin_t : Z; margin_b : Z }.

Record Layout : Type :=
  { title : string;
    xaxis : string;
    yaxis : string;
    template : string;
    hovermode : option string;
    legend : option Legend;
    margin : option Margin }.

Record Figure : Type :=
  { data : list Scatter;
    layout : Layout }.

(** ** [plot_data] *)

(** Line 125. *)
Definition max_commits (commit_dataframe : list ContributorWeekSample) : scalar :=
  py_or (series_max (map commits commit_dataframe)) (PyInt 1).

(** The divisor of line 126. *)
Definition churn_denominator (code_dataframe : list WeeklyChurnSample) : scalar :=
  py_max (series_max (map additions code_dataframe))
         (py_abs (series_min (map deletions code_dataframe))).

(** Line 126. *)
Definition scaling_factor (code_dataframe : list WeeklyChurnSample)
    (commit_dataframe : list ContributorWeekSample) : float64 :=
  truediv (max_commits commit_dataframe) (churn_denominator code_dataframe).

(** The loops of lines 153 to 164 and 222 to 232; they differ in the prefix
    of the trace name only. *)
Definition contributor_traces (prefix : string)
    (commit_dataframe : list ContributorWeekSample) : list Scatter :=
  map (fun contributor =>
         let contributor_data :=
           filter (fun row => (cw_author row =? contributor)%string)
                  commit_dataframe in
         {| x := map cw_timestamp contributor_data;
            y := IntSeries (map commits contributor_data);
            mode := "lines+markers";
            fill := None;
            line := {| color := None; dash := None; width := Some (3 # 2)%Q |};
            name := prefix ++ contributor;
            opacity := None |})
      (unique (map cw_author commit_dataframe)).

(** Lines 122 to 177: the combined figure. *)
Definition overlay_figure (code_dataframe : list WeeklyChurnSample)
    (commit_dataframe : list ContributorWeekSample) : Figure :=
  let k := scaling_factor code_dataframe commit_dataframe in
  {| data :=
       [ {| x := map timestamp code_dataframe;
            y := mul_series (map additions code_dataframe) k;
            mode := "lines";
            fill := Some "tozeroy";
            line := {| color := Some "green"; dash := None; width := Some 2%Q |};
            name := "Additions (scaled)";
            opacity := Some (3 # 5)%Q |};
         {| x := map timestamp code_dataframe;
            y := mul_series (map deletions code_dataframe) k;
            mode := "lines";
            fill := Some "tozeroy";
            line := {| color := Some "red"; dash := Some "dot"; width := Some 2%Q |};
            name := "Deletions (scaled)";
            opacity := Some (3 # 5)%Q |} ]
       ++ contributor_traces "Commits by: " commit_dataframe;
     layout :=
       {| title := "Code frequency withing contributor activity";
          xaxis := "Date";
          yaxis := "Changes (additions/deletions scaled)";
          template := "plotly_dark";
          hovermode := Some "x unified";
          legend := Some {| orientation := "h"; yanchor := "bottom";
                            legend_y := (-3 # 10)%Q; xanchor := "center";
                            legend_x := (1 # 2)%Q |};
          margin := Some {| margin_l := 40; margin_r := 40;
                            margin_t := 40; margin_b := 40 |} |} |}.

(** Lines 179 to 218: the figure titled "Raw code frequency". *)
Definition code_freq_figure (code_dataframe : list WeeklyChurnSample)
    (commit_dataframe : list ContributorWeekSample) : Figure :=
  let k := scaling_factor code_dataframe commit_dataframe in
  {| data :=
       [ {| x := map timestamp code_dataframe;
            y := IntSeries (map additions code_dataframe);
            mode := "lines";
            fill := None;
            line := {| color := Some "green"; dash := None; width := None |};
            name := "Additions";
            opacity := None |};
         {| x := map timestamp code_dataframe;
            y := IntSeries (map additions code_dataframe);
            mode := "lines";
            fill := Some "tozeroy";
            line := {| color := Some "green"; dash := None; width := Some 2%Q |};
            name := "Additions (scaled)";
            opacity := Some (3 # 5)%Q |};
         {| x := map timestamp code_dataframe;
            y := mul_series (map deletions code_dataframe) k;
            mode := "lines";
            fill := Some "tozeroy";
            line := {| color := Some "red"; dash := Some "dot"; width := Some 2%Q |};
            name := "Deletions (scaled)";
            opacity := Some (3 # 5)%Q |} ];
     layout :=
       {| title := "Raw code frequency";
          xaxis := "Date";
          yaxis := "Additions/Deletions";
          template := "plotly_dark";
          hovermode := None;
          legend := None;
          margin := None |} |}.

(** Lines 220 to 239: the figure titled "Raw commit activity". *)
Definition commit_activity_figure
    (commit_dataframe : list ContributorWeekSample) : Figure :=
  {| data := contributor_traces "Commits by " commit_dataframe;
     layout :=
       {| title := "Raw commit activity";
          xaxis := "Date";
          yaxis := "Commits";
          template := "plotly_dark";
          hovermode := None;
          legend := None;
          margin := None |} |}.

(** [plot_data]: the figures in the order of their [show()] calls. *)
Definition plot_data (code_dataframe : list WeeklyChurnSample)
    (commit_dataframe : list ContributorWeekSample) : list Figure :=
  [ overlay_figure code_dataframe commit_dataframe;
    code_freq_figure code_dataframe commit_dataframe;
    commit_activity_figure commit_dataframe ].

(** ** Row-wise reading of the normalisation *)

(** The sample a code-frequency record becomes. *)
Definition churn_row (r : churn_record) : WeeklyChurnSample :=
  {| timestamp := datetime_of (fst (fst r));
     additions := snd (fst r);
     deletions := Int64.neg (Int64.abs (snd r)) |}.

(** The sample a weekly entry of the contributor [name] becomes. *)
Definition sample_of (name : string) (wk : week_entry) : ContributorWeekSample :=
  {| cw_timestamp := datetime_of (week_w wk);
     commits := week_c wk;
     cw_author := name |}.

Definition login_of (r : contributor) : string :=
  match author r with
  | AuthorObj (Some s) => s
  | _ => ""
  end.

Definition weeks_of (r : contributor) : list week_entry :=
  match weeks r with
  | Some ws => ws
  | None => []
  end.

(** One sample per week of the record, tagged with its author, in the
    order of the week list. *)
Definition record_samples (r : contributor) : list ContributorWeekSample :=
  map (sample_of (login_of r)) (weeks_of r).

(** Flattening, as the specification words it: one sample per
    (contributor, week) pair, contributors in payload order. *)
Definition flatten (activity : list contributor) : list ContributorWeekSample :=
  flat_map record_samples activity.

(** The rows of a table that belong to one author. *)
Definition by_author (name : string) (commit : list ContributorWeekSample)
  : list ContributorWeekSample :=
  filter (fun row => (cw_author row =? name)%string) commit.

(** ** Well-formed input *)

(** A churn record: epoch seconds that denote an instant, and two
    non-negative counts of the column dtype. *)
Definition well_formed_churn_record (r : churn_record) : Prop :=
  valid_epoch (fst (fst r))
  /\ 0 <= snd (fst r) <= Int64.max_int
  /\ 0 <= snd r <= Int64.max_int.

Definition well_formed_churn (code_freq : list churn_record) : Prop :=
  Forall well_formed_churn_record code_freq.

(** A churn record whose deletions field may have either sign. *)
Definition signed_churn_record (r : churn_record) : Prop :=
  valid_epoch (fst (fst r)) /\ Int64.in_range (snd r).

Definition valid_week (wk : week_entry) : Prop := valid_epoch (week_w wk).

(** A contributor record of the documented shape
    [{author: {login}, weeks: [{w, c}, ...]}]. *)
Definition well_formed_contributor (r : contributor) : Prop :=
  exists name ws,
    author r = AuthorObj (Some name) /\ weeks r = Some ws /\ Forall valid_week ws.

Definition well_formed_activity (activity : list contributor) : Prop :=
  Forall well_formed_contributor activity.

(** A record with at least one weekly entry. *)
Definition has_weeks (r : contributor) : Prop := weeks_of r <> [].

Definition lacks_author (r : contributor) : Prop :=
  forall s, author r <> AuthorObj (Some s).

Definition lacks_weeks (r : contributor) : Prop := weeks r = None.

(** The exceptions the body of the loop raises on a record that does not
    have the expected shape; the specification calls them MalformedPayload.
    [ValueError] is raised by [pd.concat] only. *)
Definition MalformedPayload (e : exn) : Prop :=
  match e with
  | KeyError _ | TypeError | OutOfBoundsDatetime => True
  | ValueError => False
  end.

(** ** Peaks, as the specification words the scale *)

(** The largest value of a column of non-negative counts. *)
Definition peak (col : list Z) : Z := fold_right Z.max 0 col.

Definition peak_additions (code : list WeeklyChurnSample) : Z :=
  peak (map additions code).

Definition peak_deletion_magnitude (code : list WeeklyChurnSample) : Z :=
  peak (map (fun s => Z.abs (deletions s)) code).

(** The maximum commit count, taken as 1 when the table is empty or all
    its counts are zero. *)
Definition max_commit_count (commit : list ContributorWeekSample) : Z :=
  if forallb (fun s => commits s =? 0) commit then 1
  else peak (map commits commit).

(** A sample of a normalised churn table. *)
Definition normalized_sample (s : WeeklyChurnSample) : Prop :=
  0 <= additions s /\ Int64.min_int < deletions s <= 0.

Definition normalized_churn (code : list WeeklyChurnSample) : Prop :=
  Forall normalized_sample code.

Definition nonneg_commits (commit : list ContributorWeekSample) : Prop :=
  Forall (fun s => 0 <= commits s) commit.

(** No recorded churn: every sample has zero additions and deletions (an
    empty table included). *)
Definition zero_churn (code : list WeeklyChurnSample) : Prop :=
  Forall (fun s => additions s = 0 /\ deletions s = 0) code.

Definition is_finite (x : float64) : Prop := exists q, x = Finite q.

Definition titles (figs : list Figure) : list string :=
  map (fun fig => title (layout fig)) figs.

(** ** Sample inputs *)

Definition week (s n : Z) : week_entry := {| week_w := s; week_c := n |}.

Definition record (name : string) (ws : list week_entry) : contributor :=
  {| author := AuthorObj (Some name); weeks := Some ws |}.

Definition sample_churn_payload : list churn_record :=
  [(1700352000, 100, 12); (1700956800, 30, 40); (1701561600, 0, 0)].

Definition sample_activity : list contributor :=
  [ record "A" [week 1700352000 1; week 1700956800 5; week 1701561600 0];
    record "B" [week 1700352000 2; week 1700956800 3] ].

Definition sample_code : list WeeklyChurnSample :=
  map churn_row sample_churn_payload.

Definition sample_commit : list ContributorWeekSample :=
  flatten sample_activity.

(** Contributor A with three weeks, contributor B with none. *)
Definition three_and_none : list contributor :=
  [ record "A" [week 0 1; week 604800 5; week 1209600 0]; record "B" [] ].

(** The second record has no key ["weeks"]. *)
Definition missing_weeks_activity : list contributor :=
  [ record "A" [week 0 1];
    {| author := AuthorObj (Some "B"); weeks := None |} ].

(** The login "A" in two records. *)
Definition repeated_author : list contributor :=
  [ record "A" [week 0 1; week 604800 2];
    record "B" [week 0 4];
    record "A" [week 0 7] ].

Definition repeated_author_no_weeks : list contributor :=
  [ record "A" [week 0 1]; record "A" [] ].

(** One week with no churn at all. *)
Definition zero_code : list WeeklyChurnSample :=
  [ {| timestamp := datetime_of 1700352000; additions := 0; deletions := 0 |} ].

Definition zero_commit : list ContributorWeekSample :=
  [ sample_of "A" (week 1700352000 0); sample_of "B" (week 1700352000 0) ].

(** ** The settings file: [ensure_env_file] and [load_env_variables]

    The file is the list of its lines as the iteration over the open file
    yields them, each with its line terminator.  Characters are the bytes
    of [string]; the whitespace of Unicode beyond ASCII is not
    represented. *)

(** [ch.isspace()] on ASCII: tab to carriage return, the four separators
    28 to 31, and the space. *)
Definition is_space (ch : ascii) : bool :=
  let n := nat_of_ascii ch in
  ((9 <=? n) && (n <=? 13) || (28 <=? n) && (n <=? 32))%nat.

Fixpoint lstrip_by (p : ascii -> bool) (s : string) : string :=
  match s with
  | EmptyString => EmptyString
  | String ch rest => if p ch then lstrip_by p rest else s
  end.

Fixpoint rstrip_by (p : ascii -> bool) (s : string) : string :=
  match s with
  | EmptyString => EmptyString
  | String ch rest =>
      match rstrip_by p rest with
      | EmptyString => if p ch then EmptyString else String ch EmptyString
      | r => String ch r
      end
  end.

(** [s.strip()] and [s.strip("/")] *)
Definition str_strip (s : string) : string :=
  rstrip_by is_space (lstrip_by is_space s).

Definition strip_slash (s : string) : string :=
  rstrip_by (Ascii.eqb "/") (lstrip_by (Ascii.eqb "/") s).

(** [sep in s], for a separator of one character. *)
Fixpoint contains (sep : ascii) (s : string) : bool :=
  match s with
  | EmptyString => false
  | String ch rest => Ascii.eqb ch sep || contains sep rest
  end.

(** The text before and after the first occurrence of [sep]. *)
Fixpoint split_once (sep : ascii) (s : string) : option (string * string) :=
  match s with
  | EmptyString => None
  | String ch rest =>
      if Ascii.eqb ch sep then Some (EmptyString, rest)
      else match split_once sep rest with
           | Some (before, after) => Some (String ch before, after)
           | None => None
           end
  end.

(** [s.split(sep, 1)] *)
Definition str_split1 (sep : ascii) (s : string) : list string :=
  match split_once sep s with
  | Some (before, after) => [before; after]
  | None => [s]
  end.

(** [s.split(sep)] *)
Fixpoint str_split (sep : ascii) (s : string) : list string :=
  match s with
  | EmptyString => [EmptyString]
  | String ch rest =>
      if Ascii.eqb ch sep then EmptyString :: str_split sep rest
      else match str_split sep rest with
           | part :: parts => String ch part :: parts
           | [] => [String ch EmptyString]
           end
  end.

(** The dictionary [env_vars]: the newest binding of a key comes first
    and is the one a lookup finds. *)
Definition env_dict : Type := list (string * string).

Definition dict_set (key value : string) (d : env_dict) : env_dict :=
  (key, value) :: d.

(** [d.get(key)]: [None] when the key is absent. *)
Fixpoint dict_get (key : string) (d : env_dict) : option string :=
  match d with
  | [] => None
  | (k, v) :: rest => if (k =? key)%string then Some v else dict_get key rest
  end.

(** Truth value of a string or [None]. *)
Definition truthy_str (v : option string) : bool :=
  match v with
  | Some (String _ _) => true
  | _ => false
  end.

(** How a call ends: it returns, it calls [exit()], or an exception leaves
    it. *)
Inductive outcome (A : Type) : Type :=
| Return (a : A)
| Exit
| Uncaught (e : exn).

Arguments Return {A} a.
Arguments Exit {A}.
Arguments Uncaught {A} e.

Definition newline : string := String "010" EmptyString.



Definition invalid_url_message : string :=
  "Invalid URL format. Falling back to REPO_OWNER and REPO_NAME.".

Definition please_ensure_message : string :=
  "Please ensure 'TOKEN', and either 'URL' or 'REPO_OWNER' and 'REPO_NAME' are filled in the '.env' file.".


(** Lines 33 to 35, one line of the file. *)
Definition read_env_line (env_vars : env_dict) (line : string) : result env_dict :=
  if contains "=" line then
    match str_split1 "=" (str_strip line) with
    | [key; value] => Ok (dict_set (str_strip key) (str_strip value) env_vars)
    | _ => Raise ValueError
    end
  else Ok env_vars.

(** The loop of lines 32 to 35. *)
Fixpoint read_env (lines : list string) (env_vars : env_dict) : result env_dict :=
  match lines with
  | [] => Ok env_vars
  | line :: rest =>
      env_vars' <- read_env_line env_vars line ;;
      read_env rest env_vars'
  end.

(** Lines 41 to 46. [urlparse_path] stands for the library: the [path]
    component [urlparse] gives, [None] when it raises [ValueError].  The
    unpacking of line 44 assigns nothing unless there are exactly three
    parts. *)
Definition owner_name_of_url (urlparse_path : string -> option string)
    (url : string) : option string * option string * list string :=
  match urlparse_path url with
  | None => (None, None, [invalid_url_message])
  | Some path =>
      match str_split "/" (strip_slash path) with
      | [_; owner; name] => (Some owner, Some name, [])
      | _ => (None, None, [invalid_url_message])
      end
  end.

(** Lines 37 to 56, from the dictionary on. *)
Definition resolve_env (urlparse_path : string -> option string)
    (env_vars : env_dict)
  : list string * outcome (option string * option string * option string) :=
  let _token := dict_get "TOKEN" env_vars in
  let '(owner, name, printed) :=
    if truthy_str (dict_get "URL" env_vars) then
      match dict_get "URL" env_vars with
      | Some url => owner_name_of_url urlparse_path url
      | None => (None, None, [])
      end
    else (None, None, []) in
  let '(owner, name) :=
    if negb (truthy_str owner) || negb (truthy_str name)
    then (dict_get "REPO_OWNER" env_vars, dict_get "REPO_NAME" env_vars)
    else (owner, name) in
  if negb (truthy_str _token) || negb (truthy_str owner) || negb (truthy_str name)
  then ((printed ++ [please_ensure_message])%list, Exit)
  else (printed, Return (owner, name, _token)).

(** [load_env_variables], on the lines of the settings file: what is
    printed and how the call ends. *)
Definition load_env_variables (urlparse_path : string -> option string)
    (lines : list string)
  : list string * outcome (option string * option string * option string) :=
  match read_env lines [] with
  | Raise e => ([], Uncaught e)
  | Ok env_vars => resolve_env urlparse_path env_vars
  end.

(** A string without whitespace at either end. *)
Definition is_stripped (s : string) : Prop :=
  lstrip_by is_space s = s /\ rstrip_by is_space s = s.

(** A string of whitespace only. *)
Definition all_space (s : string) : Prop := lstrip_by is_space s = EmptyString.

(** An assignment line of the file, with padding around both sides. *)
Definition assignment_line (pad1 key pad2 pad3 value pad4 : string) : string :=
  (pad1 ++ key ++ pad2 ++ "=" ++ pad3 ++ value ++ pad4)%string.

(** The number of values of a trace column. *)
Definition series_length (col : series) : nat :=
  match col with
  | IntSeries l => length l
  | FloatSeries l => length l
  end.

(** The rows the loops of [plot_data] draw, one group per author. *)
Definition author_groups (commit : list ContributorWeekSample)
  : list (list ContributorWeekSample) :=
  map (fun a => by_author a commit) (unique (map cw_author commit)).

(** What a line of the settings file contributes: a binding, when it is
    an assignment with whitespace around the key and the value, or nothing,
    when it has no equals sign. *)
Definition line_reads (line : string) (entry : option (string * string)) : Prop :=
  match entry with
  | Some (key, value) =>
      exists pad1 pad2 pad3 pad4,
        all_space pad1 /\ all_space pad2 /\ all_space pad3 /\ all_space pad4
        /\ is_stripped key /\ is_stripped value /\ contains "=" key = false
        /\ line = assignment_line pad1 key pad2 pad3 value pad4
  | None => contains "=" line = false
  end.


(** A path segment: not empty and without a slash. *)
Definition is_segment (s : string) : Prop :=
  s <> EmptyString /\ contains "/" s = false.

(** The template of [ensure_env_file] with its four fields filled in. *)
Definition filled_template (owner name token url : string) : list string :=
  [ "# Github API data for requests" ++ newline;
    "REPO_OWNER=" ++ owner ++ newline;
    "REPO_NAME=" ++ name ++ newline;
    "TOKEN=" ++ token ++ newline;
    "URL=" ++ url ++ newline ]%string.

(** A parser that takes the whole text as the path, as [urlparse] does for
    a text without scheme, query or fragment. *)
Definition path_is_text (url : string) : option string := Some url.

(** * Properties *)

(** ** The error monad *)

Section MapM.

Context {A B : Type}.
Variable f : A -> result B.

Lemma mapM_Ok_inv (l : list A) (bs : list B) :
  mapM f l = Ok bs -> Forall2 (fun a b => f a = Ok b) l bs.
Proof.
  revert bs; induction l as [|a l IH]; simpl; intros bs H.
  - injection H as <-. constructor.
  - destruct (f a) as [b|e] eqn:Ea; simpl in H; [|discriminate].
    destruct (mapM f l) as [bs'|e] eqn:El; simpl in H; [|discriminate].
    injection H as <-. constructor; auto.
Qed.

Lemma mapM_Ok_map (g : A -> B) (l : list A) :
  Forall (fun a => f a = Ok (g a)) l -> mapM f l = Ok (map g l).
Proof.
  induction 1 as [|a l Ha _ IH]; simpl; [reflexivity|].
  now rewrite Ha, IH.
Qed.

Lemma mapM_Raise (l : list A) (a : A) (e : exn) :
  In a l -> f a = Raise e -> exists e', mapM f l = Raise e'.
Proof.
  induction l as [|a0 l IH]; simpl; [tauto|].
  intros [->|Hin] Ha.
  - rewrite Ha. simpl. eauto.
  - destruct (f a0); simpl; [|eauto].
    destruct (IH Hin Ha) as [e' ->]. simpl. eauto.
Qed.

End MapM.

Lemma combine_map_self {A B} (g : A -> B) (l : list A) :
  combine (map g l) l = map (fun a => (g a, a)) l.
Proof. induction l; simpl; congruence. Qed.

(** ** Timestamps *)

Lemma to_datetime_value_Ok (s : Z) (t : Timestamp) :
  to_datetime_value s = Ok t <-> valid_epoch s /\ t = datetime_of s.
Proof.
  unfold to_datetime_value, valid_epoch.
  destruct (Z.leb_spec datetime_min_s s); destruct (Z.leb_spec s datetime_max_s);
    simpl; split; intros Hs; try discriminate;
    try (injection Hs as <-; split; [lia | reflexivity]);
    destruct Hs as [Hs ->]; first [reflexivity | lia].
Qed.

Lemma to_datetime_Ok (col : list Z) (ts : list Timestamp) :
  to_datetime col = Ok ts <-> Forall valid_epoch col /\ ts = map datetime_of col.
Proof.
  unfold to_datetime. split.
  - intros H. apply mapM_Ok_inv in H.
    induction H as [|s t col ts Hst _ [IH1 IH2]]; simpl.
    + split; constructor.
    + apply to_datetime_value_Ok in Hst. destruct Hst as [Hs ->].
      split; [constructor; assumption | congruence].
  - intros [Hv ->]. apply mapM_Ok_map.
    apply Forall_impl with (2 := Hv).
    intros s Hs. now apply to_datetime_value_Ok.
Qed.

(** ** int64 wrap-around *)

Lemma wrap_in_range (z : Z) : Int64.in_range z -> Int64.wrap z = z.
Proof.
  unfold Int64.in_range, Int64.min_int, Int64.max_int, Int64.wrap.
  intros H. rewrite Z.mod_small; lia.
Qed.

Lemma wrap_two_pow_63 : Int64.wrap (2 ^ 63) = - 2 ^ 63.
Proof. reflexivity. Qed.

(** Negating the absolute value is exact on the whole int64 range: at
    [min_int] both operations overflow and the two overflows cancel. *)
Lemma neg_abs_exact (d : Z) :
  Int64.in_range d -> Int64.neg (Int64.abs d) = - Z.abs d.
Proof.
  intros H. unfold Int64.neg, Int64.abs.
  destruct (Z.eq_dec d Int64.min_int) as [->|Hne].
  - reflexivity.
  - assert (Hr : Int64.in_range (Z.abs d))
      by (unfold Int64.in_range, Int64.min_int, Int64.max_int in *; lia).
    rewrite (wrap_in_range _ Hr). apply wrap_in_range.
    unfold Int64.in_range, Int64.min_int, Int64.max_int in *; lia.
Qed.

Lemma abs_exact (d : Z) :
  Int64.min_int < d <= Int64.max_int -> Int64.abs d = Z.abs d.
Proof.
  intros H. unfold Int64.abs. apply wrap_in_range.
  unfold Int64.in_range, Int64.min_int, Int64.max_int in *; lia.
Qed.

(** ** Churn normalisation *)

Ltac unfold_int64 :=
  unfold Int64.in_range, Int64.min_int, Int64.max_int in *.

(** Evaluates a closed side condition. *)
Ltac by_evaluation :=
  repeat match goal with
         | |- _ /\ _ => split
         | |- Forall _ _ => constructor
         | |- _ <> _ => discriminate
         | |- exists _, _ => eexists
         end;
  try reflexivity; try (vm_compute; intuition discriminate).

Lemma process_code_frequency_Ok (code_freq : list churn_record)
    (code : list WeeklyChurnSample) :
  process_code_frequency code_freq = Ok code <->
  Forall (fun r : churn_record => valid_epoch (fst (fst r))) code_freq
  /\ code = map churn_row code_freq.
Proof.
  unfold process_code_frequency.
  destruct (to_datetime _) as [ts|e] eqn:E; simpl.
  - apply to_datetime_Ok in E. destruct E as [Hv ->].
    rewrite Forall_map in Hv.
    rewrite map_map, (combine_map_self (fun r : churn_record => datetime_of (fst (fst r)))).
    rewrite map_map. split.
    + intros H. injection H as <-. split; [assumption | reflexivity].
    + intros [_ ->]. reflexivity.
  - split; [discriminate|]. intros [Hv _]. exfalso.
    assert (H : to_datetime (map (fun r : churn_record => fst (fst r)) code_freq)
                = Ok (map datetime_of (map (fun r : churn_record => fst (fst r)) code_freq))).
    { apply to_datetime_Ok. split; [|reflexivity]. now rewrite Forall_map. }
    congruence.
Qed.

Lemma churn_row_normalized (r : churn_record) :
  well_formed_churn_record r -> normalized_sample (churn_row r).
Proof.
  destruct r as [[s a] d]. unfold well_formed_churn_record, normalized_sample.
  simpl. intros (_ & Ha & Hd).
  rewrite neg_abs_exact by (unfold_int64; lia). unfold_int64. lia.
Qed.

(** C2. Every sample of the churn table computed from a well-formed
    payload (epoch seconds and two non-negative counts per record)
    satisfies deletions <= 0 <= additions; the table is produced, and it is
    the one [process_data] returns. *)
Theorem churn_sign_invariant (code_freq : list churn_record) :
  well_formed_churn code_freq ->
  exists code,
    process_code_frequency code_freq = Ok code
    /\ Forall (fun s => deletions s <= 0 <= additions s) code
    /\ forall activity code' commit,
         process_data code_freq activity = Ok (code', commit) -> code' = code.
Proof.
  intros Hwf. exists (map churn_row code_freq). split; [|split].
  - apply process_code_frequency_Ok. split; [|reflexivity].
    apply Forall_impl with (2 := Hwf). intros r Hr. apply Hr.
  - apply Forall_map. apply Forall_impl with (2 := Hwf).
    intros r Hr. apply churn_row_normalized in Hr.
    unfold normalized_sample in Hr. lia.
  - intros activity code' commit H. unfold process_data in H.
    destruct (process_code_frequency code_freq) as [cd|e] eqn:E; [|discriminate].
    apply process_code_frequency_Ok in E. destruct E as [_ ->].
    simpl in H. destruct (process_commit_activity activity); [|discriminate].
    simpl in H. congruence.
Qed.

Lemma churn_sign_invariant_witness :
  well_formed_churn sample_churn_payload
  /\ exists code,
       process_code_frequency sample_churn_payload = Ok code
       /\ Forall (fun s => deletions s <= 0 <= additions s) code
       /\ forall activity code' commit,
            process_data sample_churn_payload activity = Ok (code', commit) ->
            code' = code.
Proof.
  assert (Hwf : well_formed_churn sample_churn_payload)
    by (unfold well_formed_churn, sample_churn_payload, well_formed_churn_record;
        by_evaluation).
  split; [exact Hwf | exact (churn_sign_invariant sample_churn_payload Hwf)].
Defined.

(** C9. Whatever the sign of the raw deletions value, the deletions of the
    output sample are the negated absolute value of it, hence never
    positive; this holds on the whole int64 range, the wrap-around at the
    smallest value included. *)
Theorem deletions_sign_robust (code_freq : list churn_record) :
  Forall signed_churn_record code_freq ->
  exists code,
    process_code_frequency code_freq = Ok code
    /\ map deletions code = map (fun r : churn_record => - Z.abs (snd r)) code_freq
    /\ Forall (fun s => deletions s <= 0) code.
Proof.
  intros Hs. exists (map churn_row code_freq). split; [|split].
  - apply process_code_frequency_Ok. split; [|reflexivity].
    apply Forall_impl with (2 := Hs). intros r Hr. apply Hr.
  - rewrite map_map. apply map_ext_in. intros r Hr.
    rewrite Forall_forall in Hs. destruct (Hs r Hr) as [_ Hd].
    simpl. now apply neg_abs_exact.
  - apply Forall_map. apply Forall_impl with (2 := Hs).
    intros r [_ Hd]. simpl. rewrite neg_abs_exact by assumption. lia.
Qed.

Lemma deletions_sign_robust_witness :
  Forall signed_churn_record [(0, 7, 40); (604800, 7, -40); (1209600, 0, Int64.min_int)]
  /\ exists code,
       process_code_frequency [(0, 7, 40); (604800, 7, -40); (1209600, 0, Int64.min_int)]
       = Ok code
       /\ map deletions code = [-40; -40; Int64.min_int]
       /\ Forall (fun s => deletions s <= 0) code.
Proof.
  assert (Hs : Forall signed_churn_record
                 [(0, 7, 40); (604800, 7, -40); (1209600, 0, Int64.min_int)])
    by (unfold signed_churn_record; by_evaluation).
  split; [exact Hs | exact (deletions_sign_robust _ Hs)].
Defined.

(** ** Commit-activity normalisation *)

Lemma mapM_Ok_iff {A B} (f : A -> result B) (g : A -> B) (P : A -> Prop) :
  (forall a b, f a = Ok b <-> P a /\ b = g a) ->
  forall l bs, mapM f l = Ok bs <-> Forall P l /\ bs = map g l.
Proof.
  intros Hf l bs. split.
  - intros H. apply mapM_Ok_inv in H.
    induction H as [|a b l bs Hab _ [IH1 IH2]]; simpl.
    + split; constructor.
    + apply Hf in Hab. destruct Hab as [Ha ->].
      split; [constructor; assumption | congruence].
  - intros [HP ->]. apply mapM_Ok_map.
    apply Forall_impl with (2 := HP). intros a Ha. now apply Hf.
Qed.

Lemma mapM_Raise_inv {A B} (f : A -> result B) (l : list A) (e : exn) :
  mapM f l = Raise e -> exists a, In a l /\ f a = Raise e.
Proof.
  induction l as [|a l IH]; simpl; [discriminate|].
  destruct (f a) as [b|e0] eqn:Ea; simpl.
  - destruct (mapM f l) as [bs|e1]; simpl; [discriminate|].
    intros H. injection H as ->.
    destruct (IH eq_refl) as (a' & Hin & Ha'). eauto.
  - intros H. injection H as ->. eauto.
Qed.

Lemma to_datetime_Raise (col : list Z) (e : exn) :
  to_datetime col = Raise e -> e = OutOfBoundsDatetime.
Proof.
  intros H. apply mapM_Raise_inv in H. destruct H as (s & _ & Hs).
  unfold to_datetime_value in Hs.
  destruct (_ && _); [discriminate | congruence].
Qed.

Lemma weekly_frame_Ok (name : string) (ws : list week_entry)
    (frame : list ContributorWeekSample) :
  weekly_frame name ws = Ok frame <->
  ws <> [] /\ Forall valid_week ws /\ frame = map (sample_of name) ws.
Proof.
  destruct ws as [|wk ws].
  - simpl. split; [discriminate | intros [H _]; congruence].
  - unfold weekly_frame.
    destruct (to_datetime _) as [ts|e] eqn:E.
    + apply to_datetime_Ok in E. destruct E as [Hv ->].
      rewrite Forall_map in Hv. unfold bind.
      rewrite map_map, (combine_map_self (fun k => datetime_of (week_w k))), map_map.
      split.
      * intros H. injection H as <-. repeat split; [discriminate | assumption].
      * intros (_ & _ & ->). reflexivity.
    + split; [discriminate|]. intros (_ & Hv & _). exfalso.
      assert (H : to_datetime (map week_w (wk :: ws))
                  = Ok (map datetime_of (map week_w (wk :: ws)))).
      { apply to_datetime_Ok. split; [|reflexivity]. now rewrite Forall_map. }
      congruence.
Qed.

Lemma contributor_frame_Ok (r : contributor) (frame : list ContributorWeekSample) :
  contributor_frame r = Ok frame <->
  (well_formed_contributor r /\ has_weeks r) /\ frame = record_samples r.
Proof.
  unfold contributor_frame, get_login, get_weeks, well_formed_contributor,
    has_weeks, record_samples, login_of, weeks_of.
  destruct r as [[| |[name|]] [ws|]]; simpl;
    try (split; [discriminate | intros [[(n & l & Ha & Hw & _) _] _]; discriminate]).
  rewrite weekly_frame_Ok. split.
  - intros (Hne & Hv & ->). repeat split; eauto.
  - intros [[(n & l & Ha & Hw & Hv) Hne] ->].
    injection Hw as <-. auto.
Qed.

Lemma contributor_frame_Raise (r : contributor) (e : exn) :
  contributor_frame r = Raise e -> MalformedPayload e.
Proof.
  unfold contributor_frame, get_login, get_weeks.
  destruct r as [[| |[name|]] [ws|]]; simpl;
    try (intros H; injection H as <-; exact I).
  destruct ws as [|wk ws]; simpl.
  - intros H; injection H as <-; exact I.
  - destruct (to_datetime _) eqn:E; simpl; [discriminate|].
    intros H. injection H as <-.
    apply to_datetime_Raise in E. subst. exact I.
Qed.

(** The loop with its accumulator is a monadic map. *)
Lemma collect_frames_mapM (activity : list contributor)
    (acc : list (list ContributorWeekSample)) :
  collect_frames activity acc =
  (frames <- mapM contributor_frame activity ;; Ok (acc ++ frames)%list).
Proof.
  revert acc; induction activity as [|r rest IH]; intros acc; simpl.
  - now rewrite app_nil_r.
  - destruct (contributor_frame r) as [frame|e]; simpl; [|reflexivity].
    rewrite IH. destruct (mapM contributor_frame rest); simpl; [|reflexivity].
    now rewrite <- app_assoc.
Qed.

Lemma process_commit_activity_Ok (activity : list contributor)
    (commit : list ContributorWeekSample) :
  process_commit_activity activity = Ok commit <->
  activity <> []
  /\ Forall (fun r => well_formed_contributor r /\ has_weeks r) activity
  /\ commit = flatten activity.
Proof.
  unfold process_commit_activity. rewrite collect_frames_mapM. simpl.
  destruct (mapM contributor_frame activity) as [frames|e] eqn:E; simpl.
  - apply (mapM_Ok_iff _ _ _ contributor_frame_Ok) in E. destruct E as [Hwf ->].
    unfold flatten. rewrite flat_map_concat_map.
    destruct activity as [|r rest]; simpl.
    + split; [discriminate | intros [H _]; congruence].
    + split.
      * intros H. injection H as <-. repeat split; [discriminate | assumption].
      * intros (_ & _ & ->). reflexivity.
  - split; [discriminate|]. intros (_ & Hwf & _). exfalso.
    assert (H : mapM contributor_frame activity = Ok (map record_samples activity))
      by (apply (mapM_Ok_iff _ _ _ contributor_frame_Ok); auto).
    congruence.
Qed.

Lemma process_commit_activity_Raise (activity : list contributor) (r : contributor)
    (e : exn) :
  In r activity -> contributor_frame r = Raise e ->
  exists e', process_commit_activity activity = Raise e' /\ MalformedPayload e'.
Proof.
  intros Hin Hr. unfold process_commit_activity. rewrite collect_frames_mapM.
  destruct (mapM_Raise contributor_frame activity r e Hin Hr) as [e' He'].
  rewrite He'. simpl. exists e'. split; [reflexivity|].
  apply mapM_Raise_inv in He'. destruct He' as (r' & _ & Hr').
  now apply contributor_frame_Raise in Hr'.
Qed.

(** A table [process_data] returns always has a commit row. *)
Lemma process_data_commit_nonempty (code_freq : list churn_record)
    (activity : list contributor) code commit :
  process_data code_freq activity = Ok (code, commit) -> commit <> [].
Proof.
  unfold process_data.
  destruct (process_code_frequency code_freq); simpl; [|discriminate].
  destruct (process_commit_activity activity) as [cm|] eqn:E; simpl; [|discriminate].
  intros H. injection H as _ <-.
  apply process_commit_activity_Ok in E. destruct E as (Hne & Hwf & ->).
  destruct activity as [|r rest]; [congruence|].
  inversion Hwf as [|? ? [_ Hw] _]; subst.
  unfold flatten, has_weeks, record_samples in *. simpl.
  destruct (weeks_of r); [congruence | discriminate].
Qed.

(** *** Grouping the flattened table by author *)

Lemma by_author_same (name : string) (ws : list week_entry) :
  by_author name (map (sample_of name) ws) = map (sample_of name) ws.
Proof.
  unfold by_author. induction ws as [|wk ws IH]; simpl; [reflexivity|].
  rewrite String.eqb_refl. now rewrite IH.
Qed.

Lemma by_author_other (name other : string) (ws : list week_entry) :
  other <> name -> by_author name (map (sample_of other) ws) = [].
Proof.
  intros Hne. unfold by_author. induction ws as [|wk ws IH]; simpl; [reflexivity|].
  destruct (String.eqb_spec other name); [contradiction | assumption].
Qed.

Lemma by_author_app (name : string) (t1 t2 : list ContributorWeekSample) :
  by_author name (t1 ++ t2) = (by_author name t1 ++ by_author name t2)%list.
Proof. apply filter_app. Qed.

Lemma flatten_cons (r : contributor) (rest : list contributor) :
  flatten (r :: rest) = (record_samples r ++ flatten rest)%list.
Proof. reflexivity. Qed.

Lemma by_author_absent (name : string) (activity : list contributor) :
  ~ In name (map login_of activity) -> by_author name (flatten activity) = [].
Proof.
  induction activity as [|r rest IH]; intros Hn; [reflexivity|].
  simpl in Hn. rewrite flatten_cons, by_author_app.
  rewrite IH by tauto. unfold record_samples.
  rewrite by_author_other by tauto. reflexivity.
Qed.

Lemma by_author_flatten (activity : list contributor) (r : contributor) :
  NoDup (map login_of activity) -> In r activity ->
  by_author (login_of r) (flatten activity) = record_samples r.
Proof.
  induction activity as [|r0 rest IH]; intros Hnd Hin; [destruct Hin|].
  simpl in Hnd, Hin. inversion Hnd as [|? ? Hnotin Hnd']; subst.
  rewrite flatten_cons, by_author_app.
  destruct Hin as [->|Hin].
  - rewrite (by_author_absent _ _ Hnotin). unfold record_samples at 1.
    rewrite by_author_same. now rewrite app_nil_r.
  - rewrite IH by assumption. unfold record_samples at 1.
    rewrite by_author_other; [reflexivity|].
    intros Heq. apply Hnotin. rewrite Heq. now apply in_map.
Qed.

Lemma length_flatten (activity : list contributor) :
  length (flatten activity)
  = list_sum (map (fun r => length (weeks_of r)) activity).
Proof.
  induction activity as [|r rest IH]; [reflexivity|].
  rewrite flatten_cons, length_app, IH. unfold record_samples.
  now rewrite length_map.
Qed.

Lemma record_well_formed (name : string) (ws : list week_entry) :
  Forall valid_week ws -> well_formed_contributor (record name ws).
Proof. intros H. exists name, ws. auto. Qed.

(** Well-formedness of a payload written out with [record] and [week]. *)
Ltac well_formed_payload :=
  unfold well_formed_activity;
  repeat (apply Forall_cons || apply Forall_nil);
  apply record_well_formed;
  repeat (apply Forall_cons || apply Forall_nil);
  vm_compute; intuition discriminate.

(** *** Flattening (C3) *)

(** C3, as stated, fails: a payload of the documented shape in which one
    contributor has no weekly entry is not flattened, the lookup of the
    column ["w"] raises. *)
Lemma flatten_fails_on_empty_week_list :
  well_formed_activity three_and_none
  /\ process_commit_activity three_and_none = Raise (KeyError "w")
  /\ process_commit_activity three_and_none <> Ok (flatten three_and_none).
Proof.
  split; [|split].
  - unfold three_and_none. well_formed_payload.
  - reflexivity.
  - discriminate.
Qed.

(** C3, amended. A well-formed payload that is not empty and in which
    every contributor has at least one weekly entry is flattened into one
    sample per (contributor, week) pair, each tagged with its author,
    contributors in payload order and weeks in the order of the input
    list; when the logins are distinct the rows of an author are exactly
    the samples of that record, in order.  For A with 3 weeks and B with 2
    weeks this gives 5 samples, 3 tagged A and 2 tagged B. *)
Theorem flatten_per_contributor (activity : list contributor) :
  activity <> [] ->
  well_formed_activity activity ->
  Forall has_weeks activity ->
  exists commit,
    process_commit_activity activity = Ok commit
    /\ commit = flatten activity
    /\ (NoDup (map login_of activity) ->
        forall r, In r activity ->
                  by_author (login_of r) commit = record_samples r)
    /\ (forall a wa b wb,
          activity = [record a wa; record b wb] -> a <> b ->
          length wa = 3%nat -> length wb = 2%nat ->
          length commit = 5%nat
          /\ length (by_author a commit) = 3%nat
          /\ length (by_author b commit) = 2%nat
          /\ by_author a commit = map (sample_of a) wa
          /\ by_author b commit = map (sample_of b) wb).
Proof.
  intros Hne Hwf Hw. exists (flatten activity).
  split; [|split; [reflexivity|split]].
  - apply process_commit_activity_Ok. repeat split; try assumption.
    unfold well_formed_activity in Hwf. rewrite Forall_forall in *. auto.
  - intros Hnd r Hin. now apply by_author_flatten.
  - intros a wa b wb -> Hab Ha Hb.
    assert (Hnd : NoDup (map login_of [record a wa; record b wb])).
    { simpl. unfold login_of; simpl.
      apply NoDup_cons; [simpl; intuition congruence|].
      apply NoDup_cons; [simpl; tauto | apply NoDup_nil]. }
    pose proof (by_author_flatten _ (record a wa) Hnd (or_introl eq_refl)) as HA.
    pose proof (by_author_flatten _ (record b wb) Hnd (or_intror (or_introl eq_refl))) as HB.
    change (login_of (record a wa)) with a in HA.
    change (login_of (record b wb)) with b in HB.
    change (record_samples (record a wa)) with (map (sample_of a) wa) in HA.
    change (record_samples (record b wb)) with (map (sample_of b) wb) in HB.
    rewrite HA, HB, length_flatten, !length_map.
    cbn [map list_sum weeks_of weeks record].
    rewrite Ha, Hb. repeat split; reflexivity.
Qed.

Lemma flatten_per_contributor_witness :
  exists commit,
    process_commit_activity sample_activity = Ok commit
    /\ commit = flatten sample_activity
    /\ (NoDup (map login_of sample_activity) ->
        forall r, In r sample_activity ->
                  by_author (login_of r) commit = record_samples r)
    /\ (forall a wa b wb,
          sample_activity = [record a wa; record b wb] -> a <> b ->
          length wa = 3%nat -> length wb = 2%nat ->
          length commit = 5%nat
          /\ length (by_author a commit) = 3%nat
          /\ length (by_author b commit) = 2%nat
          /\ by_author a commit = map (sample_of a) wa
          /\ by_author b commit = map (sample_of b) wb).
Proof.
  apply (flatten_per_contributor sample_activity).
  - discriminate.
  - unfold sample_activity. well_formed_payload.
  - unfold sample_activity, has_weeks. by_evaluation.
Defined.

(** *** Empty payloads (C5) *)

(** C5, as stated, fails on its second half: with an empty commit-activity
    payload the list of frames is empty and [pd.concat] raises. *)
Lemma empty_activity_raises :
  process_commit_activity [] = Raise ValueError
  /\ process_commit_activity [] <> Ok []
  /\ process_data [] [] = Raise ValueError.
Proof. repeat split; [discriminate]. Qed.

(** C5, amended. An empty churn payload yields an empty churn table
    without raising, and [process_data] returns it together with the
    commit table whenever the commit-activity payload normalises. *)
Theorem empty_churn_is_total (activity : list contributor)
    (commit : list ContributorWeekSample) :
  process_commit_activity activity = Ok commit ->
  process_code_frequency [] = Ok []
  /\ process_data [] activity = Ok ([], commit).
Proof.
  intros H. split; [reflexivity|].
  unfold process_data. simpl. now rewrite H.
Qed.

Lemma empty_churn_is_total_witness :
  process_commit_activity sample_activity = Ok sample_commit
  /\ process_code_frequency [] = Ok []
  /\ process_data [] sample_activity = Ok ([], sample_commit).
Proof.
  assert (H : process_commit_activity sample_activity = Ok sample_commit)
    by reflexivity.
  split; [exact H | exact (empty_churn_is_total sample_activity sample_commit H)].
Defined.

(** *** Malformed contributor records (C7) *)

Lemma lacking_record_raises (r : contributor) :
  lacks_author r \/ lacks_weeks r -> exists e, contributor_frame r = Raise e.
Proof.
  unfold lacks_author, lacks_weeks, contributor_frame, get_login, get_weeks.
  destruct r as [[| |[name|]] [ws|]]; simpl; intros [H|H];
    try (eexists; reflexivity); try discriminate;
    exfalso; apply (H name); reflexivity.
Qed.

(** C7. When some contributor record of the payload lacks its author
    identifier or its list of weekly entries, normalisation raises one of
    the exceptions of a malformed payload, from the commit-activity part
    alone and from [process_data] as a whole: no table, hence no sample of
    any contributor, is returned. *)
Theorem malformed_contributor_fails (activity : list contributor)
    (r : contributor) :
  In r activity ->
  lacks_author r \/ lacks_weeks r ->
  (exists e, process_commit_activity activity = Raise e /\ MalformedPayload e)
  /\ forall code_freq,
       exists e, process_data code_freq activity = Raise e /\ MalformedPayload e.
Proof.
  intros Hin Hbad.
  destruct (lacking_record_raises r Hbad) as [e0 He0].
  destruct (process_commit_activity_Raise activity r e0 Hin He0) as (e & He & Hm).
  split; [eauto|].
  intros code_freq. unfold process_data, process_code_frequency.
  destruct (to_datetime _) as [ts|e1] eqn:E; simpl.
  - rewrite He. simpl. eauto.
  - apply to_datetime_Raise in E. subst. exists OutOfBoundsDatetime.
    split; [reflexivity | exact I].
Qed.

Lemma malformed_contributor_fails_witness :
  (exists e, process_commit_activity missing_weeks_activity = Raise e
             /\ MalformedPayload e)
  /\ forall code_freq,
       exists e, process_data code_freq missing_weeks_activity = Raise e
                 /\ MalformedPayload e.
Proof.
  apply (malformed_contributor_fails missing_weeks_activity
           {| author := AuthorObj (Some "B"); weeks := None |}).
  - simpl. right. left. reflexivity.
  - right. reflexivity.
Defined.

(** The exception itself: the first record that cannot be framed decides
    it, and the author lookup comes before the weeks lookup. *)
Lemma missing_weeks_is_a_KeyError :
  process_commit_activity missing_weeks_activity = Raise (KeyError "weeks")
  /\ process_data sample_churn_payload missing_weeks_activity
     = Raise (KeyError "weeks")
  /\ process_commit_activity
       [ {| author := AuthorAbsent; weeks := None |} ] = Raise (KeyError "author")
  /\ process_commit_activity
       [ {| author := AuthorNull; weeks := Some [week 0 1] |} ] = Raise TypeError.
Proof. repeat split. Qed.

(** *** No deduplication of authors (C10) *)

(** C10, as stated, fails: the count is not produced for every payload. A
    record with an empty week list makes the normalisation raise, also
    when its author already has rows. *)
Lemma duplicate_author_empty_weeks_raises :
  well_formed_activity repeated_author_no_weeks
  /\ list_sum (map (fun r => length (weeks_of r)) repeated_author_no_weeks) = 1%nat
  /\ process_commit_activity repeated_author_no_weeks = Raise (KeyError "w")
  /\ ~ exists commit,
         process_commit_activity repeated_author_no_weeks = Ok commit
         /\ length commit = 1%nat.
Proof.
  split; [unfold repeated_author_no_weeks; well_formed_payload|].
  split; [reflexivity|]. split; [reflexivity|].
  intros (commit & H & _). discriminate.
Qed.

(** C10, amended. For every well-formed payload that is not empty and in
    which every record has at least one weekly entry, also when one login
    appears in several records, each record is flattened on its own, the
    frames are concatenated in payload order, and the number of samples is
    the sum of the lengths of the week lists. *)
Theorem no_author_deduplication (activity : list contributor) :
  activity <> [] ->
  well_formed_activity activity ->
  Forall has_weeks activity ->
  exists commit,
    process_commit_activity activity = Ok commit
    /\ commit = concat (map record_samples activity)
    /\ length commit = list_sum (map (fun r => length (weeks_of r)) activity).
Proof.
  intros Hne Hwf Hw. exists (flatten activity). split; [|split].
  - apply process_commit_activity_Ok. repeat split; try assumption.
    unfold well_formed_activity in Hwf. rewrite Forall_forall in *. auto.
  - unfold flatten. apply flat_map_concat_map.
  - apply length_flatten.
Qed.

Lemma no_author_deduplication_witness :
  exists commit,
    process_commit_activity repeated_author = Ok commit
    /\ commit = concat (map record_samples repeated_author)
    /\ length commit = list_sum (map (fun r => length (weeks_of r)) repeated_author).
Proof.
  apply (no_author_deduplication repeated_author).
  - discriminate.
  - unfold repeated_author. well_formed_payload.
  - unfold repeated_author, has_weeks. by_evaluation.
Defined.

(** On that payload the two records of "A" give three rows of "A". *)
Lemma repeated_author_rows :
  process_commit_activity repeated_author
  = Ok [ sample_of "A" (week 0 1); sample_of "A" (week 604800 2);
         sample_of "B" (week 0 4); sample_of "A" (week 0 7) ].
Proof. reflexivity. Qed.

(** ** The scale factor *)

Lemma peak_nonneg (col : list Z) : 0 <= peak col.
Proof. induction col; simpl; lia. Qed.

Lemma peak_upper_bound (col : list Z) (z : Z) : In z col -> z <= peak col.
Proof.
  induction col as [|a col IH]; simpl; [tauto|].
  intros [->|H]; [lia|]. specialize (IH H). lia.
Qed.


Lemma peak_zero (col : list Z) :
  Forall (fun z => 0 <= z) col -> (peak col = 0 <-> Forall (fun z => z = 0) col).
Proof.
  induction 1 as [|a col Ha _ IH]; simpl.
  - split; constructor.
  - pose proof (peak_nonneg col). split.
    + intros H0. constructor; [lia | apply IH; lia].
    + intros H0. inversion H0; subst. apply IH in H4. lia.
Qed.

(** The running maximum of [Series.max()] against the peak. *)
Lemma fold_max_peak (col : list Z) (a : Z) :
  0 <= a -> fold_left Z.max col a = Z.max a (peak col).
Proof.
  revert a; induction col as [|b col IH]; simpl; intros a Ha; [lia|].
  rewrite IH by lia. lia.
Qed.

(** The running minimum of [Series.min()] on a column without positive
    values: its magnitude is the peak of the magnitudes. *)
Lemma fold_min_peak (col : list Z) (d : Z) :
  d <= 0 -> Forall (fun z => z <= 0) col ->
  Z.abs (fold_left Z.min col d) = Z.max (Z.abs d) (peak (map Z.abs col)).
Proof.
  intros Hd Hcol; revert d Hd.
  induction Hcol as [|b col Hb _ IH]; simpl; intros d Hd.
  - pose proof (Z.abs_nonneg d). lia.
  - rewrite IH by lia. lia.
Qed.

Lemma fold_min_bounds (col : list Z) (d lo : Z) :
  lo < d <= 0 -> Forall (fun z => lo < z <= 0) col ->
  lo < fold_left Z.min col d <= 0.
Proof.
  intros Hd Hcol; revert d Hd.
  induction Hcol as [|b col Hb _ IH]; simpl; intros d Hd; [assumption|].
  apply IH. lia.
Qed.

Lemma churn_denominator_normalized (code : list WeeklyChurnSample) :
  code <> [] -> normalized_churn code ->
  churn_denominator code
  = NpInt (Z.max (peak_additions code) (peak_deletion_magnitude code)).
Proof.
  intros Hne Hn. destruct code as [|s code]; [congruence|].
  inversion Hn as [|? ? [Ha Hd] Hrest]; subst.
  unfold churn_denominator, peak_additions, peak_deletion_magnitude.
  cbn [map series_max series_min py_abs].
  rewrite fold_max_peak by assumption.
  assert (Hb : Int64.min_int < fold_left Z.min (map deletions code) (deletions s) <= 0).
  { apply fold_min_bounds; [assumption|]. apply Forall_map.
    apply Forall_impl with (2 := Hrest). intros r Hr. apply Hr. }
  rewrite abs_exact by (unfold_int64; lia).
  rewrite fold_min_peak; [|lia|].
  - rewrite map_map. unfold py_max, py_gt. cbn [peak fold_right map].
    fold (peak (map additions code)).
    fold (peak (map (fun x => Z.abs (deletions x)) code)).
    destruct (Z.ltb_spec (Z.max (additions s) (peak (map additions code)))
                (Z.max (Z.abs (deletions s))
                       (peak (map (fun x => Z.abs (deletions x)) code))));
      f_equal; lia.
  - apply Forall_map. apply Forall_impl with (2 := Hrest).
    intros r Hr. unfold normalized_sample in Hr. lia.
Qed.

Lemma max_commit_count_positive (commit : list ContributorWeekSample) :
  nonneg_commits commit -> 0 < max_commit_count commit.
Proof.
  intros Hpos. unfold max_commit_count.
  destruct (forallb _ commit) eqn:E; [lia|].
  pose proof (peak_nonneg (map commits commit)) as H0.
  assert (Hz : peak (map commits commit) <> 0); [|lia].
  intros Hz. apply peak_zero in Hz; [|now apply Forall_map].
  rewrite Forall_map in Hz.
  assert (forallb (fun s => commits s =? 0) commit = true); [|congruence].
  apply forallb_forall. rewrite Forall_forall in Hz.
  intros r Hr. apply Z.eqb_eq. auto.
Qed.

(** Line 125 against the maximum commit count of the specification. *)
Lemma max_commits_spec (commit : list ContributorWeekSample) :
  commit <> [] -> nonneg_commits commit ->
  to_float (max_commits commit) = Finite (inject_Z (max_commit_count commit)).
Proof.
  intros Hne Hpos. destruct commit as [|s commit]; [congruence|].
  inversion Hpos as [|? ? Hs Hrest]; subst.
  unfold max_commits, max_commit_count. cbn [map series_max forallb].
  rewrite fold_max_peak by assumption.
  change (Z.max (commits s) (peak (map commits commit)))
    with (peak (map commits (s :: commit))).
  pose proof (peak_zero (map commits (s :: commit))) as Hz.
  rewrite Forall_map in Hz. specialize (Hz Hpos).
  unfold py_or, truthy.
  destruct (Z.eqb_spec (peak (map commits (s :: commit))) 0) as [E|E]; simpl.
  - apply Hz in E. rewrite Forall_map in E. inversion E as [|? ? E1 E2]; subst.
    rewrite E1. simpl.
    replace (forallb (fun s0 => commits s0 =? 0) commit) with true; [reflexivity|].
    symmetry. apply forallb_forall. rewrite Forall_forall in E2.
    intros r Hr. apply Z.eqb_eq. auto.
  - destruct (commits s =? 0) eqn:E1; simpl; [|reflexivity].
    destruct (forallb (fun s0 => commits s0 =? 0) commit) eqn:E2; [|reflexivity].
    exfalso. apply E, Hz. rewrite Forall_map. constructor.
    + now apply Z.eqb_eq.
    + rewrite forallb_forall in E2. apply Forall_forall.
      intros r Hr. apply Z.eqb_eq. auto.
Qed.

Lemma scaling_factor_normalized (code : list WeeklyChurnSample)
    (commit : list ContributorWeekSample) :
  code <> [] -> normalized_churn code ->
  commit <> [] -> nonneg_commits commit ->
  scaling_factor code commit
  = float_div (Finite (inject_Z (max_commit_count commit)))
      (Finite (inject_Z (Z.max (peak_additions code) (peak_deletion_magnitude code)))).
Proof.
  intros Hc Hn Hm Hp. unfold scaling_factor, truediv.
  rewrite max_commits_spec by assumption.
  now rewrite churn_denominator_normalized.
Qed.

(** C1. For a normalised churn table with at least one sample and a
    positive denominator (and a commit table with at least one row of
    non-negative counts, as every table of [process_data] has), the scale
    factor is the maximum commit count divided by the larger of the peak
    additions and the peak magnitude of deletions; with peaks 100 and 40
    and a maximum commit count of 5 it is 5/100 = 0.05. *)
Theorem scale_is_max_commits_over_peak (code : list WeeklyChurnSample)
    (commit : list ContributorWeekSample) :
  code <> [] -> normalized_churn code ->
  commit <> [] -> nonneg_commits commit ->
  0 < Z.max (peak_additions code) (peak_deletion_magnitude code) ->
  scaling_factor code commit
  = Finite (inject_Z (max_commit_count commit)
            / inject_Z (Z.max (peak_additions code) (peak_deletion_magnitude code)))
  /\ (peak_additions code = 100 -> peak_deletion_magnitude code = 40 ->
      max_commit_count commit = 5 ->
      exists q, scaling_factor code commit = Finite q
                /\ (q == 5 # 100)%Q /\ (q == 0.05)%Q).
Proof.
  intros Hc Hn Hm Hp Hd.
  rewrite scaling_factor_normalized by assumption.
  unfold float_div. cbn [Qnum inject_Z].
  destruct (Z.eqb_spec (Z.max (peak_additions code) (peak_deletion_magnitude code)) 0);
    [lia|].
  split; [reflexivity|].
  intros -> -> ->. eexists. split; [reflexivity|]. split; reflexivity.
Qed.

Lemma scale_is_max_commits_over_peak_witness :
  scaling_factor sample_code sample_commit = Finite (inject_Z 5 / inject_Z 100)
  /\ (peak_additions sample_code = 100 -> peak_deletion_magnitude sample_code = 40 ->
      max_commit_count sample_commit = 5 ->
      exists q, scaling_factor sample_code sample_commit = Finite q
                /\ (q == 5 # 100)%Q /\ (q == 0.05)%Q).
Proof.
  apply (scale_is_max_commits_over_peak sample_code sample_commit).
  - discriminate.
  - unfold normalized_churn, normalized_sample. by_evaluation.
  - discriminate.
  - unfold nonneg_commits. by_evaluation.
  - reflexivity.
Defined.

(** The table of the witness has the peaks of the specification's example. *)
Lemma sample_peaks :
  peak_additions sample_code = 100
  /\ peak_deletion_magnitude sample_code = 40
  /\ max_commit_count sample_commit = 5
  /\ process_data sample_churn_payload sample_activity
     = Ok (sample_code, sample_commit).
Proof. repeat split. Qed.

(** C6. When every commit count is zero and the churn denominator is not,
    the scale is computed with 1 in place of the maximum commit count:
    it is 1 over the larger of the two churn peaks. *)
Theorem all_zero_commits_scale (code : list WeeklyChurnSample)
    (commit : list ContributorWeekSample) :
  normalized_churn code ->
  commit <> [] -> Forall (fun s => commits s = 0) commit ->
  Z.max (peak_additions code) (peak_deletion_magnitude code) <> 0 ->
  max_commits commit = PyInt 1
  /\ scaling_factor code commit
     = Finite (1 / inject_Z (Z.max (peak_additions code) (peak_deletion_magnitude code))).
Proof.
  intros Hn Hm Hz Hd.
  assert (Hc : code <> []) by (intros ->; apply Hd; reflexivity).
  assert (Hp : nonneg_commits commit).
  { apply Forall_impl with (2 := Hz). intros s Hs. lia. }
  assert (Hpeak : peak (map commits commit) = 0).
  { apply peak_zero; rewrite Forall_map; assumption. }
  split.
  - destruct commit as [|s commit]; [congruence|].
    unfold max_commits. cbn [map series_max].
    inversion Hp; subst. rewrite fold_max_peak by assumption.
    change (Z.max (commits s) (peak (map commits commit)))
      with (peak (map commits (s :: commit))).
    now rewrite Hpeak.
  - rewrite scaling_factor_normalized by assumption.
    assert (Hone : max_commit_count commit = 1).
    { unfold max_commit_count.
      replace (forallb (fun s => commits s =? 0) commit) with true; [reflexivity|].
      symmetry. apply forallb_forall. rewrite Forall_forall in Hz.
      intros r Hr. apply Z.eqb_eq. auto. }
    rewrite Hone. unfold float_div. cbn [Qnum inject_Z].
    destruct (Z.eqb_spec (Z.max (peak_additions code) (peak_deletion_magnitude code)) 0);
      [contradiction | reflexivity].
Qed.

Lemma all_zero_commits_scale_witness :
  max_commits zero_commit = PyInt 1
  /\ scaling_factor sample_code zero_commit = Finite (1 / inject_Z 100).
Proof.
  apply (all_zero_commits_scale sample_code zero_commit).
  - unfold normalized_churn, normalized_sample. by_evaluation.
  - discriminate.
  - by_evaluation.
  - discriminate.
Defined.

(** *** No recorded churn (C4) *)

Lemma signed_inf_not_finite (s : Z) : ~ is_finite (signed_inf s).
Proof. intros [q H]. destruct s; discriminate. Qed.

Lemma zero_churn_normalized (code : list WeeklyChurnSample) :
  zero_churn code ->
  normalized_churn code /\ peak_additions code = 0 /\ peak_deletion_magnitude code = 0.
Proof.
  unfold zero_churn, normalized_churn, peak_additions, peak_deletion_magnitude.
  induction 1 as [|s code [Ha Hd] _ (IH1 & IH2 & IH3)]; simpl.
  - repeat split. constructor.
  - rewrite IH2, IH3, Ha, Hd. repeat split.
    constructor; [|assumption].
    unfold normalized_sample. rewrite Ha, Hd. unfold_int64. lia.
Qed.

Lemma zero_churn_denominator (code : list WeeklyChurnSample) :
  zero_churn code ->
  churn_denominator code = match code with [] => NpFloat NaN | _ :: _ => NpInt 0 end.
Proof.
  intros Hz. destruct code as [|s code]; [reflexivity|].
  destruct (zero_churn_normalized _ Hz) as (Hn & Ha & Hd).
  rewrite churn_denominator_normalized by (assumption || discriminate).
  now rewrite Ha, Hd.
Qed.

(** C4, as stated, fails: with no recorded churn nothing is raised, the
    scale is an infinity and the combined figure is shown all the same. *)
Lemma zero_churn_overlay_is_shown :
  zero_churn zero_code
  /\ scaling_factor zero_code sample_commit = PInf
  /\ In (overlay_figure zero_code sample_commit) (plot_data zero_code sample_commit)
  /\ map y (data (overlay_figure zero_code sample_commit))
     = [ FloatSeries [NaN]; FloatSeries [NaN];
         IntSeries [1; 5; 0]; IntSeries [2; 3] ].
Proof.
  split; [unfold zero_churn, zero_code; by_evaluation|].
  split; [reflexivity|]. split; [left; reflexivity | reflexivity].
Qed.

(** C4, amended. When the churn denominator is zero (every sample has zero
    additions and deletions, or the churn table is empty) the scale
    computation does not fail: it yields a value that is not finite, NaN
    for an empty churn table and plus infinity for a table of zeros against
    a commit table with rows; the combined figure is not skipped, and the
    three figures are shown in their usual order. *)
Theorem zero_churn_scale_not_finite (code : list WeeklyChurnSample)
    (commit : list ContributorWeekSample) :
  zero_churn code ->
  ~ is_finite (scaling_factor code commit)
  /\ (code = [] -> scaling_factor code commit = NaN)
  /\ (code <> [] -> commit <> [] -> nonneg_commits commit ->
      scaling_factor code commit = PInf)
  /\ titles (plot_data code commit)
     = [ "Code frequency withing contributor activity";
         "Raw code frequency"; "Raw commit activity" ].
Proof.
  intros Hz. pose proof (zero_churn_denominator code Hz) as Hden.
  unfold scaling_factor, truediv. rewrite Hden.
  split; [|split; [|split]].
  - destruct code; simpl.
    + intros [q H]. destruct (to_float (max_commits commit)); discriminate.
    + destruct (to_float (max_commits commit)) as [q| | |]; simpl;
        try apply signed_inf_not_finite; intros [q' H]; discriminate.
  - intros ->. simpl. now destruct (to_float (max_commits commit)).
  - intros Hc Hm Hp. destruct code as [|s code]; [congruence|].
    rewrite max_commits_spec by assumption. simpl.
    pose proof (max_commit_count_positive commit Hp) as Hpos.
    destruct (max_commit_count commit); simpl; [lia | reflexivity | lia].
  - reflexivity.
Qed.

Lemma zero_churn_scale_not_finite_witness :
  ~ is_finite (scaling_factor zero_code zero_commit)
  /\ (zero_code = [] -> scaling_factor zero_code zero_commit = NaN)
  /\ (zero_code <> [] -> zero_commit <> [] -> nonneg_commits zero_commit ->
      scaling_factor zero_code zero_commit = PInf)
  /\ titles (plot_data zero_code zero_commit)
     = [ "Code frequency withing contributor activity";
         "Raw code frequency"; "Raw commit activity" ].
Proof.
  apply (zero_churn_scale_not_finite zero_code zero_commit).
  unfold zero_churn, zero_code. by_evaluation.
Defined.

(** *** The figure titled "Raw code frequency" (C8) *)

(** C8 does not hold of the code. In the figure titled "Raw code
    frequency" the two additions traces carry the column as it is, but the
    deletions trace carries the column multiplied by the scale factor, as
    in the combined figure: on the sample tables the deletions -12, -40
    and 0 are drawn as -0.6, -2 and 0. *)
Theorem raw_churn_view_scales_deletions :
  (forall code commit,
      map y (data (code_freq_figure code commit))
      = [ IntSeries (map additions code);
          IntSeries (map additions code);
          mul_series (map deletions code) (scaling_factor code commit) ])
  /\ map deletions sample_code = [-12; -40; 0]
  /\ scaling_factor sample_code sample_commit = Finite (5 # 100)
  /\ map y (data (code_freq_figure sample_code sample_commit))
     = [ IntSeries [100; 30; 0];
         IntSeries [100; 30; 0];
         FloatSeries [Finite (-60 # 100); Finite (-200 # 100); Finite (0 # 100)] ]
  /\ nth 2 (map y (data (code_freq_figure sample_code sample_commit))) (IntSeries [])
     <> IntSeries (map deletions sample_code).
Proof.
  split; [reflexivity|]. repeat split. discriminate.
Qed.

(** * Further properties of [process_data] *)

(** When [process_data] returns, and what: every epoch second of the churn
    payload denotes an instant, the activity payload is not empty, and
    every contributor record has a login and at least one weekly entry
    with valid epoch seconds; the tables are then the row-wise images of
    the payloads, in payload order. *)
Theorem process_data_Ok_iff (code_freq : list churn_record)
    (activity : list contributor) code commit :
  process_data code_freq activity = Ok (code, commit) <->
  Forall (fun r : churn_record => valid_epoch (fst (fst r))) code_freq
  /\ activity <> []
  /\ Forall (fun r => well_formed_contributor r /\ has_weeks r) activity
  /\ code = map churn_row code_freq
  /\ commit = flatten activity.
Proof.
  unfold process_data. split.
  - destruct (process_code_frequency code_freq) as [cd|e] eqn:E1; simpl; [|discriminate].
    destruct (process_commit_activity activity) as [cm|e] eqn:E2; simpl; [|discriminate].
    intros H. injection H as <- <-.
    apply process_code_frequency_Ok in E1. apply process_commit_activity_Ok in E2.
    tauto.
  - intros (Hv & Hne & Hwf & -> & ->).
    assert (E1 : process_code_frequency code_freq = Ok (map churn_row code_freq))
      by (apply process_code_frequency_Ok; auto).
    assert (E2 : process_commit_activity activity = Ok (flatten activity))
      by (apply process_commit_activity_Ok; auto).
    now rewrite E1, E2.
Qed.

(** [ValueError] is the exception of the empty activity payload and of no
    other: a payload with a record in it either normalises or raises one of
    the lookup or conversion exceptions of the loop. *)
Theorem ValueError_iff_empty_activity (activity : list contributor) :
  process_commit_activity activity = Raise ValueError <-> activity = [].
Proof.
  split; [|intros ->; reflexivity].
  intros H. destruct activity as [|r rest]; [reflexivity|]. exfalso.
  unfold process_commit_activity in H. rewrite collect_frames_mapM in H.
  destruct (mapM contributor_frame (r :: rest)) as [frames|e] eqn:E; simpl in H.
  - apply mapM_Ok_inv in E. inversion E; subst. discriminate.
  - injection H as ->. apply mapM_Raise_inv in E. destruct E as (r' & _ & Hr').
    apply contributor_frame_Raise in Hr'. exact Hr'.
Qed.

Lemma mapM_first_Raise {A B} (f : A -> result B) (pre post : list A) (a : A)
    (e : exn) :
  Forall (fun a' => exists b, f a' = Ok b) pre -> f a = Raise e ->
  mapM f (pre ++ a :: post) = Raise e.
Proof.
  induction 1 as [|a' pre [b Hb] _ IH]; simpl; intros Ha.
  - now rewrite Ha.
  - rewrite Hb. simpl. now rewrite IH.
Qed.

(** The first contributor record that cannot be framed decides the
    exception: the rows of the records before it are discarded and the
    records after it are not looked at, whatever they hold. *)
Theorem first_failing_record_decides (pre post : list contributor)
    (r : contributor) (e : exn) :
  Forall (fun r' => exists frame, contributor_frame r' = Ok frame) pre ->
  contributor_frame r = Raise e ->
  process_commit_activity (pre ++ r :: post) = Raise e
  /\ forall code_freq,
       Forall (fun c : churn_record => valid_epoch (fst (fst c))) code_freq ->
       process_data code_freq (pre ++ r :: post) = Raise e.
Proof.
  intros Hpre Hr.
  assert (H : process_commit_activity (pre ++ r :: post) = Raise e).
  { unfold process_commit_activity. rewrite collect_frames_mapM.
    now rewrite (mapM_first_Raise _ pre post r e Hpre Hr). }
  split; [assumption|]. intros code_freq Hv. unfold process_data.
  assert (E : process_code_frequency code_freq = Ok (map churn_row code_freq))
    by (apply process_code_frequency_Ok; auto).
  now rewrite E, H.
Qed.

Lemma first_failing_record_decides_witness :
  process_commit_activity
    ([record "A" [week 0 1]]
       ++ {| author := AuthorObj None; weeks := Some [week 0 2] |}
       :: [ {| author := AuthorAbsent; weeks := None |} ])
  = Raise (KeyError "login")
  /\ forall code_freq,
       Forall (fun c : churn_record => valid_epoch (fst (fst c))) code_freq ->
       process_data code_freq
         ([record "A" [week 0 1]]
            ++ {| author := AuthorObj None; weeks := Some [week 0 2] |}
            :: [ {| author := AuthorAbsent; weeks := None |} ])
       = Raise (KeyError "login").
Proof.
  apply (first_failing_record_decides
           [record "A" [week 0 1]]
           [ {| author := AuthorAbsent; weeks := None |} ]
           {| author := AuthorObj None; weeks := Some [week 0 2] |}
           (KeyError "login")).
  - constructor; [|constructor]. eexists. reflexivity.
  - reflexivity.
Defined.




(** * Further properties of [plot_data] *)

(** ** Grouping by author *)

Lemma unique_In (l : list string) (a : string) : In a (unique l) <-> In a l.
Proof.
  induction l as [|b l IH]; simpl; [tauto|].
  rewrite filter_In, IH. destruct (String.eqb_spec a b) as [->|Hne]; simpl.
  - intuition.
  - split; [intuition | intros [->|H]; [congruence | auto]].
Qed.

Lemma NoDup_filter_keep {A} (p : A -> bool) (l : list A) : NoDup l -> NoDup (filter p l).
Proof.
  induction 1 as [|a l Hn _ IH]; simpl; [constructor|].
  destruct (p a); [|assumption].
  constructor; [|assumption]. rewrite filter_In. tauto.
Qed.

Lemma unique_NoDup (l : list string) : NoDup (unique l).
Proof.
  induction l as [|b l IH]; simpl; constructor.
  - rewrite filter_In. rewrite String.eqb_refl. simpl. intuition discriminate.
  - now apply NoDup_filter_keep.
Qed.

Lemma filter_idem {A} (p : A -> bool) (l : list A) :
  filter p (filter p l) = filter p l.
Proof.
  induction l as [|a l IH]; simpl; [reflexivity|].
  destruct (p a) eqn:E; simpl; [rewrite E|]; congruence.
Qed.

Lemma filter_all {A} (p : A -> bool) (l : list A) :
  (forall a, In a l -> p a = true) -> filter p l = l.
Proof.
  induction l as [|a l IH]; simpl; intros H; [reflexivity|].
  rewrite (H a) by auto. rewrite IH; auto.
Qed.

Lemma unique_of_NoDup (l : list string) : NoDup l -> unique l = l.
Proof.
  induction 1 as [|a l Hn _ IH]; simpl; [reflexivity|].
  rewrite IH. f_equal. apply filter_all.
  intros b Hb. destruct (String.eqb_spec b a); [congruence | reflexivity].
Qed.

(** One row more in the table: exactly one group gets it. *)
Lemma groups_cons {A} (key : A -> string) (x0 : A) (l : list A) (ks : list string) :
  NoDup ks -> In (key x0) ks ->
  Permutation
    (concat (map (fun a => filter (fun r => (key r =? a)%string) (x0 :: l)) ks))
    (x0 :: concat (map (fun a => filter (fun r => (key r =? a)%string) l) ks)).
Proof.
  induction 1 as [|k ks Hk Hnd IH]; intros Hin; [destruct Hin|].
  cbn [map concat].
  destruct (String.eqb_spec (key x0) k) as [E|E].
  - assert (Hsame : map (fun a => filter (fun r => (key r =? a)%string) (x0 :: l)) ks
                    = map (fun a => filter (fun r => (key r =? a)%string) l) ks).
    { apply map_ext_in. intros a Ha. cbn [filter].
      destruct (String.eqb_spec (key x0) a); [|reflexivity].
      exfalso. apply Hk. congruence. }
    rewrite Hsame. cbn [filter].
    destruct (String.eqb_spec (key x0) k); [|contradiction]. reflexivity.
  - destruct Hin as [Hin|Hin]; [congruence|].
    rewrite (IH Hin). cbn [filter].
    destruct (String.eqb_spec (key x0) k); [contradiction|].
    symmetry. apply Permutation_middle.
Qed.

Lemma groups_nil {A} (key : A -> string) (ks : list string) :
  concat (map (fun a => filter (fun r : A => (key r =? a)%string) []) ks) = [].
Proof. induction ks; simpl; auto. Qed.

Lemma groups_partition {A} (key : A -> string) (l : list A) (ks : list string) :
  NoDup ks -> (forall a, In a l -> In (key a) ks) ->
  Permutation (concat (map (fun a => filter (fun r => (key r =? a)%string) l) ks)) l.
Proof.
  intros Hnd. induction l as [|x0 l IH]; intros Hin.
  - rewrite groups_nil. constructor.
  - rewrite groups_cons by (auto; apply Hin; left; reflexivity).
    apply perm_skip. apply IH. intros a Ha. apply Hin. now right.
Qed.

(** The two loops over [unique()] draw every row of the commit table
    exactly once: each author has one trace, no trace is empty, and the
    groups put end to end are the rows of the table up to their order. *)
Theorem author_groups_partition (prefix : string)
    (commit : list ContributorWeekSample) :
  Permutation (concat (author_groups commit)) commit
  /\ NoDup (unique (map cw_author commit))
  /\ (forall a, In a (unique (map cw_author commit)) <-> In a (map cw_author commit))
  /\ Forall (fun g => g <> []) (author_groups commit)
  /\ map x (contributor_traces prefix commit)
     = map (map cw_timestamp) (author_groups commit)
  /\ map y (contributor_traces prefix commit)
     = map (fun g => IntSeries (map commits g)) (author_groups commit).
Proof.
  unfold author_groups. split; [|split; [|split; [|split; [|split]]]].
  - apply (groups_partition cw_author); [apply unique_NoDup|].
    intros r Hr. apply unique_In. now apply in_map.
  - apply unique_NoDup.
  - intros a. apply unique_In.
  - apply Forall_map, Forall_forall. intros a Ha Hempty.
    apply unique_In, in_map_iff in Ha. destruct Ha as (r & Hr & Hin).
    assert (Hg : In r (by_author a commit)).
    { unfold by_author. apply filter_In. split; [assumption|].
      now apply String.eqb_eq. }
    rewrite Hempty in Hg. destruct Hg.
  - unfold contributor_traces. rewrite !map_map. reflexivity.
  - unfold contributor_traces. rewrite !map_map. reflexivity.
Qed.

(** ** From the payload to the traces *)

(** The rows of an author are the flattening of the records that carry
    that login, in payload order: records that share a login are merged. *)
Lemma by_author_flatten_filter (activity : list contributor) (a : string) :
  by_author a (flatten activity)
  = flatten (filter (fun r => (login_of r =? a)%string) activity).
Proof.
  induction activity as [|r rest IH]; [reflexivity|].
  rewrite flatten_cons, by_author_app, IH. cbn [filter].
  unfold record_samples at 1.
  destruct (String.eqb_spec (login_of r) a) as [<-|Hne].
  - rewrite by_author_same. reflexivity.
  - rewrite by_author_other by assumption. reflexivity.
Qed.

Lemma filter_unique_block (n : string) (ws : list week_entry) (L : list string) :
  filter (fun b => negb (b =? n)%string)
         (unique (map cw_author (map (sample_of n) ws) ++ L))
  = filter (fun b => negb (b =? n)%string) (unique L).
Proof.
  induction ws as [|wk ws IH]; [reflexivity|].
  cbn [map app unique cw_author sample_of filter].
  rewrite String.eqb_refl. cbn [negb]. now rewrite filter_idem.
Qed.

Lemma authors_of_flatten (activity : list contributor) :
  Forall has_weeks activity ->
  unique (map cw_author (flatten activity)) = unique (map login_of activity).
Proof.
  induction 1 as [|r rest Hw _ IH]; [reflexivity|].
  rewrite flatten_cons, map_app. unfold record_samples, has_weeks in *.
  destruct (weeks_of r) as [|wk ws]; [congruence|].
  cbn [map app unique cw_author sample_of].
  now rewrite filter_unique_block, IH.
Qed.

(** After a successful [process_data] the commit traces are one per
    distinct login, in the order in which the logins first appear in the
    payload; the trace of a login holds the weeks of all the records that
    carry it, in payload order, so two records with one login are drawn as
    a single line. *)
Theorem traces_follow_logins (prefix : string) (activity : list contributor)
    (commit : list ContributorWeekSample) :
  process_commit_activity activity = Ok commit ->
  let rows a := flatten (filter (fun r => (login_of r =? a)%string) activity) in
  map name (contributor_traces prefix commit)
  = map (fun a => (prefix ++ a)%string) (unique (map login_of activity))
  /\ map x (contributor_traces prefix commit)
     = map (fun a => map cw_timestamp (rows a)) (unique (map login_of activity))
  /\ map y (contributor_traces prefix commit)
     = map (fun a => IntSeries (map commits (rows a))) (unique (map login_of activity))
  /\ (length (contributor_traces prefix commit) <= length activity)%nat.
Proof.
  intros H rows. apply process_commit_activity_Ok in H.
  destruct H as (_ & Hwf & ->).
  assert (Hw : Forall has_weeks activity)
    by (apply Forall_impl with (2 := Hwf); tauto).
  unfold contributor_traces. rewrite !map_map, (authors_of_flatten _ Hw).
  split; [reflexivity|]. split; [|split].
  - apply map_ext. intros a. cbn [x].
    fold (by_author a (flatten activity)). now rewrite by_author_flatten_filter.
  - apply map_ext. intros a. cbn [y].
    fold (by_author a (flatten activity)). now rewrite by_author_flatten_filter.
  - rewrite length_map.
    apply Nat.le_trans with (length (map login_of activity)).
    + apply NoDup_incl_length; [apply unique_NoDup|].
      intros a Ha. now apply unique_In.
    + now rewrite length_map.
Qed.

Lemma traces_follow_logins_witness :
  let rows a := flatten (filter (fun r => (login_of r =? a)%string) repeated_author) in
  map name (contributor_traces "Commits by " (flatten repeated_author))
  = map (fun a => ("Commits by " ++ a)%string) (unique (map login_of repeated_author))
  /\ map x (contributor_traces "Commits by " (flatten repeated_author))
     = map (fun a => map cw_timestamp (rows a)) (unique (map login_of repeated_author))
  /\ map y (contributor_traces "Commits by " (flatten repeated_author))
     = map (fun a => IntSeries (map commits (rows a)))
           (unique (map login_of repeated_author))
  /\ (length (contributor_traces "Commits by " (flatten repeated_author))
      <= length repeated_author)%nat.
Proof.
  apply (traces_follow_logins "Commits by " repeated_author (flatten repeated_author)).
  reflexivity.
Defined.

(** On the payload with the login "A" in two records: two traces for
    three records, the three weeks of "A" in one of them. *)
Lemma repeated_author_traces :
  map (fun t => (name t, y t))
      (contributor_traces "Commits by " (flatten repeated_author))
  = [ ("Commits by A", IntSeries [1; 2; 7]); ("Commits by B", IntSeries [4]) ].
Proof. reflexivity. Qed.

(** ** The scaled churn series *)

Lemma scaling_factor_quotient (code : list WeeklyChurnSample)
    (commit : list ContributorWeekSample) :
  code <> [] -> normalized_churn code ->
  commit <> [] -> nonneg_commits commit ->
  0 < Z.max (peak_additions code) (peak_deletion_magnitude code) ->
  scaling_factor code commit
  = Finite (inject_Z (max_commit_count commit)
            / inject_Z (Z.max (peak_additions code) (peak_deletion_magnitude code))).
Proof.
  intros Hc Hn Hm Hp Hd. rewrite scaling_factor_normalized by assumption.
  unfold float_div. cbn [Qnum inject_Z].
  destruct (Z.eqb_spec (Z.max (peak_additions code) (peak_deletion_magnitude code)) 0);
    [lia | reflexivity].
Qed.

Lemma quotient_positive (m d : Z) :
  0 < m -> 0 < d -> (0 < inject_Z m / inject_Z d)%Q.
Proof.
  intros Hm Hd. destruct d as [|p|p]; try lia.
  unfold Qlt, Qdiv, Qmult, Qinv, inject_Z. simpl. lia.
Qed.




Lemma flatten_commits_nonneg (activity : list contributor) :
  Forall (fun r => Forall (fun wk => 0 <= week_c wk) (weeks_of r)) activity ->
  nonneg_commits (flatten activity).
Proof.
  unfold nonneg_commits. induction 1 as [|r rest Hr _ IH]; [constructor|].
  rewrite flatten_cons. apply Forall_app. split; [|assumption].
  unfold record_samples. apply Forall_map.
  apply Forall_impl with (2 := Hr). intros wk Hwk. exact Hwk.
Qed.

(** From the payloads to the scale: when the churn payload is well formed
    and has a non-zero count somewhere, and no commit count is negative,
    the tables [process_data] returns give a finite and positive scale
    factor, the maximum commit count over the larger churn peak. *)
Theorem pipeline_scale_is_positive (code_freq : list churn_record)
    (activity : list contributor) code commit :
  process_data code_freq activity = Ok (code, commit) ->
  well_formed_churn code_freq ->
  Exists (fun r : churn_record => 0 < snd (fst r) \/ 0 < snd r) code_freq ->
  Forall (fun r => Forall (fun wk => 0 <= week_c wk) (weeks_of r)) activity ->
  scaling_factor code commit
  = Finite (inject_Z (max_commit_count commit)
            / inject_Z (Z.max (peak_additions code) (peak_deletion_magnitude code)))
  /\ (0 < inject_Z (max_commit_count commit)
          / inject_Z (Z.max (peak_additions code) (peak_deletion_magnitude code)))%Q.
Proof.
  intros Hok Hwf Hex Hcom.
  pose proof (process_data_commit_nonempty _ _ _ _ Hok) as Hm.
  apply process_data_Ok_iff in Hok. destruct Hok as (_ & _ & _ & -> & ->).
  assert (Hn : normalized_churn (map churn_row code_freq)).
  { apply Forall_map. apply Forall_impl with (2 := Hwf).
    apply churn_row_normalized. }
  assert (Hp : nonneg_commits (flatten activity)) by now apply flatten_commits_nonneg.
  assert (Hc : map churn_row code_freq <> []).
  { destruct code_freq; [inversion Hex | discriminate]. }
  assert (Hd : 0 < Z.max (peak_additions (map churn_row code_freq))
                         (peak_deletion_magnitude (map churn_row code_freq))).
  { apply Exists_exists in Hex. destruct Hex as (r & Hr & Hnz).
    unfold well_formed_churn in Hwf. rewrite Forall_forall in Hwf.
    destruct (Hwf r Hr) as (_ & Ha & Hdel).
    pose proof (peak_upper_bound (map additions (map churn_row code_freq))
                  (additions (churn_row r))
                  (in_map additions _ _ (in_map churn_row _ _ Hr))) as B1.
    pose proof (peak_upper_bound
                  (map (fun s => Z.abs (deletions s)) (map churn_row code_freq))
                  (Z.abs (deletions (churn_row r)))
                  (in_map (fun s => Z.abs (deletions s)) _ _
                          (in_map churn_row _ _ Hr))) as B2.
    unfold peak_additions, peak_deletion_magnitude.
    cbn [churn_row additions deletions] in B1, B2.
    rewrite neg_abs_exact in B2 by (unfold_int64; lia). lia. }
  split.
  - now apply scaling_factor_quotient.
  - apply quotient_positive; [|assumption].
    now apply max_commit_count_positive.
Qed.

Lemma pipeline_scale_is_positive_witness :
  scaling_factor sample_code sample_commit
  = Finite (inject_Z (max_commit_count sample_commit)
            / inject_Z (Z.max (peak_additions sample_code)
                              (peak_deletion_magnitude sample_code)))
  /\ (0 < inject_Z (max_commit_count sample_commit)
          / inject_Z (Z.max (peak_additions sample_code)
                            (peak_deletion_magnitude sample_code)))%Q.
Proof.
  apply (pipeline_scale_is_positive sample_churn_payload sample_activity).
  - reflexivity.
  - unfold well_formed_churn, sample_churn_payload, well_formed_churn_record.
    by_evaluation.
  - left. left. reflexivity.
  - unfold sample_activity. repeat constructor; simpl; discriminate.
Defined.

(** ** Shape of the figures *)

Lemma contributor_traces_columns (prefix : string)
    (commit : list ContributorWeekSample) :
  Forall (fun t => length (x t) = series_length (y t))
         (contributor_traces prefix commit).
Proof.
  unfold contributor_traces. apply Forall_map, Forall_forall.
  intros a _. cbn [x y series_length]. now rewrite !length_map.
Qed.

(** Every trace of the three figures has as many y values as x values,
    whatever the tables are: the churn traces one per churn sample, the
    trace of an author one per row of that author. *)
Theorem traces_have_matching_columns (code : list WeeklyChurnSample)
    (commit : list ContributorWeekSample) :
  Forall (fun fig =>
            Forall (fun t => length (x t) = series_length (y t)) (data fig))
         (plot_data code commit).
Proof.
  unfold plot_data, overlay_figure, code_freq_figure, commit_activity_figure.
  repeat (apply Forall_cons || apply Forall_nil); cbn [data app];
    repeat (apply Forall_cons || apply Forall_nil);
    first [ apply contributor_traces_columns
          | cbn [x y mul_series series_length]; now rewrite !length_map ].
Qed.

(** A commit table without rows is not rescued by [or 1]: the maximum of
    the empty column is NaN, NaN is true, and so the scale factor is NaN
    for every churn table; every value of a scaled series is then NaN and
    there is no commit trace. *)
Theorem empty_commit_table_gives_NaN (code : list WeeklyChurnSample) :
  max_commits [] = NpFloat NaN
  /\ scaling_factor code [] = NaN
  /\ map y (data (overlay_figure code []))
     = [ FloatSeries (map (fun _ => NaN) code);
         FloatSeries (map (fun _ => NaN) code) ]
  /\ data (commit_activity_figure []) = [].
Proof.
  assert (Hk : scaling_factor code [] = NaN) by reflexivity.
  split; [reflexivity|]. split; [assumption|]. split; [|reflexivity].
  unfold overlay_figure. rewrite Hk. cbn [data map app y contributor_traces unique].
  unfold mul_series. rewrite !map_map. reflexivity.
Qed.

(** * The settings file *)

(** ** Stripping and splitting *)

Section Strip.

Variable p : ascii -> bool.



Lemma lstrip_fixed_app (a s : string) :
  lstrip_by p a = a -> a <> EmptyString -> lstrip_by p (a ++ s) = (a ++ s)%string.
Proof.
  destruct a as [|ch a]; [congruence|]. simpl. intros H _.
  destruct (p ch) eqn:E; [|reflexivity]. exfalso.
  assert (Hlen : forall t, (String.length (lstrip_by p t) <= String.length t)%nat).
  { induction t as [|c t IHt]; simpl; [lia|]. destruct (p c); simpl; lia. }
  pose proof (Hlen a) as Hl. rewrite H in Hl. simpl in Hl. lia.
Qed.


Lemma rstrip_app (a b : string) :
  rstrip_by p (a ++ b)
  = match rstrip_by p b with
    | EmptyString => rstrip_by p a
    | r => (a ++ r)%string
    end.
Proof.
  induction a as [|ch a IH]; simpl.
  - now destruct (rstrip_by p b).
  - rewrite IH. destruct (rstrip_by p b) as [|c r]; [reflexivity|].
    now destruct a.
Qed.

Lemma rstrip_empty (a : string) :
  lstrip_by p a = EmptyString -> rstrip_by p a = EmptyString.
Proof.
  induction a as [|ch a IH]; simpl; [reflexivity|].
  destruct (p ch) eqn:E; [|discriminate].
  intros H. now rewrite (IH H).
Qed.

Lemma rstrip_app_empty (s a : string) :
  lstrip_by p a = EmptyString -> rstrip_by p (s ++ a) = rstrip_by p s.
Proof. intros H. rewrite rstrip_app. now rewrite (rstrip_empty a H). Qed.




Lemma contains_lstrip (c : ascii) (s : string) :
  p c = false -> contains c (lstrip_by p s) = contains c s.
Proof.
  intros Hc. induction s as [|ch s IH]; simpl; [reflexivity|].
  destruct (p ch) eqn:E; [|reflexivity].
  rewrite IH. destruct (Ascii.eqb_spec ch c); [congruence | reflexivity].
Qed.

Lemma contains_rstrip (c : ascii) (s : string) :
  p c = false -> contains c (rstrip_by p s) = contains c s.
Proof.
  intros Hc. induction s as [|ch s IH]; simpl; [reflexivity|].
  destruct (rstrip_by p s) as [|c' r]; simpl in *.
  - rewrite <- IH. destruct (p ch) eqn:E; simpl; [|reflexivity].
    destruct (Ascii.eqb_spec ch c); [congruence | reflexivity].
  - now rewrite IH.
Qed.


End Strip.



Lemma split_once_contains (c : ascii) (s : string) :
  contains c s = true -> exists a b, split_once c s = Some (a, b).
Proof.
  induction s as [|ch s IH]; simpl; [discriminate|].
  destruct (Ascii.eqb ch c); simpl; [eauto|].
  intros H. destruct (IH H) as (a & b & ->). eauto.
Qed.

Lemma equals_is_not_space : is_space "=" = false.
Proof. reflexivity. Qed.

(** ** Reading the file *)

Lemma read_env_line_total (env_vars : env_dict) (line : string) :
  exists env_vars', read_env_line env_vars line = Ok env_vars'.
Proof.
  unfold read_env_line. destruct (contains "=" line) eqn:E; [|eauto].
  assert (H : contains "=" (str_strip line) = true).
  { unfold str_strip.
    now rewrite contains_rstrip, contains_lstrip by apply equals_is_not_space. }
  destruct (split_once_contains _ _ H) as (a & b & Hs).
  unfold str_split1. rewrite Hs. eauto.
Qed.

Lemma read_env_total (lines : list string) (env_vars : env_dict) :
  exists env_vars', read_env lines env_vars = Ok env_vars'.
Proof.
  revert env_vars; induction lines as [|line lines IH]; intros env_vars; simpl.
  - eauto.
  - destruct (read_env_line_total env_vars line) as [e1 ->]. simpl. apply IH.
Qed.


Lemma string_app_assoc (a b c : string) :
  ((a ++ b) ++ c = a ++ b ++ c)%string.
Proof. induction a as [|ch a IH]; simpl; congruence. Qed.







Lemma plain_assignment (key value : string) :
  is_stripped key -> is_stripped value -> contains "=" key = false ->
  line_reads (key ++ "=" ++ value ++ newline) (Some (key, value)).
Proof.
  intros Hk Hv Hn. exists EmptyString, EmptyString, EmptyString, newline.
  repeat split; try assumption; try reflexivity; apply Hk || apply Hv.
Qed.


(** ** What [load_env_variables] returns *)

Lemma truthy_str_Some (v : option string) :
  truthy_str v = true -> exists s, v = Some s /\ s <> EmptyString.
Proof.
  destruct v as [[|ch s]|]; simpl; try discriminate.
  intros _. eexists. split; [reflexivity | discriminate].
Qed.

Lemma owner_name_of_url_printed (urlparse_path : string -> option string)
    (url : string) :
  snd (owner_name_of_url urlparse_path url) = []
  \/ (owner_name_of_url urlparse_path url = (None, None, [invalid_url_message])).
Proof.
  unfold owner_name_of_url. destruct (urlparse_path url) as [path|]; [|now right].
  destruct (str_split "/" (strip_slash path)) as [|a [|b [|c [|d l]]]];
    simpl; auto.
Qed.

(** The guard of line 52: when [load_env_variables] returns, the owner,
    the name and the token are all strings, none of them empty, and at
    most the notice about the URL was printed; when it exits, the request
    to fill in the file is the last thing printed. *)
Theorem load_env_variables_guard (urlparse_path : string -> option string)
    (lines : list string) :
  (forall printed owner name token,
      load_env_variables urlparse_path lines = (printed, Return (owner, name, token)) ->
      (exists o n t,
          owner = Some o /\ name = Some n /\ token = Some t
          /\ o <> EmptyString /\ n <> EmptyString /\ t <> EmptyString)
      /\ (printed = [] \/ printed = [invalid_url_message]))
  /\ (forall printed,
         load_env_variables urlparse_path lines = (printed, Exit) ->
         exists before, printed = (before ++ [please_ensure_message])%list).
Proof.
  unfold load_env_variables.
  destruct (read_env_total lines []) as [env_vars ->].
  unfold resolve_env.
  assert (Hpr : forall o n pr,
             (if truthy_str (dict_get "URL" env_vars)
              then match dict_get "URL" env_vars with
                   | Some url => owner_name_of_url urlparse_path url
                   | None => (None, None, [])
                   end
              else (None, None, [])) = (o, n, pr) ->
             pr = [] \/ pr = [invalid_url_message]).
  { intros o n pr. destruct (truthy_str _); [|intros H; injection H; auto].
    destruct (dict_get "URL" env_vars) as [url|]; [|intros H; injection H; auto].
    intros H. destruct (owner_name_of_url_printed urlparse_path url) as [E|E];
      rewrite H in E; simpl in E; [auto|]. injection E; auto. }
  destruct (if truthy_str (dict_get "URL" env_vars) then _ else _) as [[o n] pr].
  specialize (Hpr o n pr eq_refl).
  destruct (if negb (truthy_str o) || negb (truthy_str n) then _ else _) as [o' n'].
  destruct (truthy_str (dict_get "TOKEN" env_vars)) eqn:Et;
    destruct (truthy_str o') eqn:Eo; destruct (truthy_str n') eqn:En; simpl;
    (split; [intros printed owner name token H | intros printed H]);
    try discriminate; try (injection H as <-; eauto; fail).
  injection H as <- <- <- <-. split; [|assumption].
  apply truthy_str_Some in Et, Eo, En.
  destruct Et as (t & -> & Ht), Eo as (ow & -> & Ho), En as (nm & -> & Hn).
  exists ow, nm, t. auto 10.
Qed.





(** ** The repository URL *)

Lemma no_sep_lstrip (c : ascii) (s : string) :
  contains c s = false -> lstrip_by (Ascii.eqb c) s = s.
Proof.
  destruct s as [|ch s]; simpl; [reflexivity|].
  intros H. apply orb_false_iff in H. destruct H as [H _].
  rewrite Ascii.eqb_sym, H. reflexivity.
Qed.

Lemma no_sep_rstrip (c : ascii) (s : string) :
  contains c s = false -> rstrip_by (Ascii.eqb c) s = s.
Proof.
  induction s as [|ch s IH]; simpl; [reflexivity|].
  intros H. apply orb_false_iff in H. destruct H as [H1 H2].
  rewrite (IH H2), Ascii.eqb_sym, H1. now destruct s.
Qed.

Lemma str_split_no_sep (c : ascii) (s : string) :
  contains c s = false -> str_split c s = [s].
Proof.
  induction s as [|ch s IH]; simpl; [reflexivity|].
  intros H. apply orb_false_iff in H. destruct H as [H1 H2].
  now rewrite H1, (IH H2).
Qed.

Lemma str_split_app_sep (c : ascii) (a b : string) :
  contains c a = false -> str_split c (a ++ String c b) = a :: str_split c b.
Proof.
  induction a as [|ch a IH]; simpl.
  - now rewrite Ascii.eqb_refl.
  - intros H. apply orb_false_iff in H. destruct H as [H1 H2].
    now rewrite H1, (IH H2).
Qed.

Lemma rstrip_cons_fixed (p : ascii -> bool) (c : ascii) (s : string) :
  rstrip_by p s = s -> s <> EmptyString -> rstrip_by p (String c s) = String c s.
Proof. intros H Hne. simpl. rewrite H. now destruct s. Qed.

Lemma rstrip_app_fixed (p : ascii -> bool) (a s : string) :
  rstrip_by p s = s -> s <> EmptyString -> rstrip_by p (a ++ s) = (a ++ s)%string.
Proof. intros H Hne. rewrite rstrip_app, H. now destruct s. Qed.

(** Slashes at the two ends of a path are dropped; the segments stay. *)
Lemma strip_slash_fixed (first tail : string) :
  is_segment first ->
  rstrip_by (Ascii.eqb "/") tail = tail -> tail <> EmptyString ->
  strip_slash (String "/" (first ++ tail)) = (first ++ tail)%string
  /\ strip_slash (first ++ tail ++ "/") = (first ++ tail)%string.
Proof.
  intros [Hf1 Hf2] Ht Hne. unfold strip_slash.
  assert (Hleft : forall t, lstrip_by (Ascii.eqb "/") (first ++ t) = (first ++ t)%string).
  { intros t. apply lstrip_fixed_app; [now apply no_sep_lstrip | assumption]. }
  split.
  - cbn [lstrip_by]. rewrite Ascii.eqb_refl, Hleft. now apply rstrip_app_fixed.
  - rewrite Hleft, <- string_app_assoc.
    rewrite rstrip_app_empty by reflexivity. now apply rstrip_app_fixed.
Qed.

(** Which URLs give the repository.  The path component has to split into
    exactly three parts once the slashes at its ends are dropped: with a
    path of the form /owner/name there are two parts, the URL is refused
    and the fallback notice is printed; with one segment before the owner,
    in front of the slash or not, the second and third segments are taken
    as owner and name. *)
Theorem url_needs_three_segments (urlparse_path : string -> option string)
    (url head owner name : string) :
  is_segment head -> is_segment owner -> is_segment name ->
  (urlparse_path url = None ->
   owner_name_of_url urlparse_path url = (None, None, [invalid_url_message]))
  /\ (urlparse_path url = Some ("/" ++ owner ++ "/" ++ name)%string ->
      owner_name_of_url urlparse_path url = (None, None, [invalid_url_message]))
  /\ (urlparse_path url = Some ("/" ++ head ++ "/" ++ owner ++ "/" ++ name)%string ->
      owner_name_of_url urlparse_path url = (Some owner, Some name, []))
  /\ (urlparse_path url = Some (head ++ "/" ++ owner ++ "/" ++ name ++ "/")%string ->
      owner_name_of_url urlparse_path url = (Some owner, Some name, [])).
Proof.
  intros Hh Ho Hn. unfold owner_name_of_url. cbn [append].
  assert (T1 : rstrip_by (Ascii.eqb "/") (String "/" name) = String "/" name).
  { apply rstrip_cons_fixed; [apply no_sep_rstrip | ]; apply Hn. }
  assert (T2 : rstrip_by (Ascii.eqb "/") (String "/" (owner ++ String "/" name))
               = String "/" (owner ++ String "/" name)).
  { apply rstrip_cons_fixed; [now apply rstrip_app_fixed|].
    destruct owner; [destruct Ho; congruence | discriminate]. }
  assert (S2 : str_split "/" (owner ++ String "/" name) = [owner; name]).
  { rewrite str_split_app_sep by apply Ho.
    now rewrite str_split_no_sep by apply Hn. }
  assert (S3 : str_split "/" (head ++ String "/" (owner ++ String "/" name))
               = [head; owner; name]).
  { rewrite str_split_app_sep by apply Hh. now rewrite S2. }
  destruct (strip_slash_fixed owner (String "/" name) Ho T1 ltac:(discriminate))
    as [E2 _].
  destruct (strip_slash_fixed head (String "/" (owner ++ String "/" name)) Hh T2
              ltac:(discriminate)) as [E3 E4].
  split; [|split; [|split]]; intros ->.
  - reflexivity.
  - now rewrite E2, S2.
  - now rewrite E3, S3.
  - replace (head ++ String "/" (owner ++ String "/" (name ++ "/")))%string
      with (head ++ String "/" (owner ++ String "/" name) ++ "/")%string.
    + now rewrite E4, S3.
    + cbn [append]. now rewrite string_app_assoc.
Qed.

Lemma url_needs_three_segments_witness :
  (path_is_text "github.com/octocat/hello-world/" = None ->
   owner_name_of_url path_is_text "github.com/octocat/hello-world/"
   = (None, None, [invalid_url_message]))
  /\ (path_is_text "github.com/octocat/hello-world/"
      = Some ("/" ++ "octocat" ++ "/" ++ "hello-world")%string ->
      owner_name_of_url path_is_text "github.com/octocat/hello-world/"
      = (None, None, [invalid_url_message]))
  /\ (path_is_text "github.com/octocat/hello-world/"
      = Some ("/" ++ "github.com" ++ "/" ++ "octocat" ++ "/" ++ "hello-world")%string ->
      owner_name_of_url path_is_text "github.com/octocat/hello-world/"
      = (Some "octocat"%string, Some "hello-world"%string, []))
  /\ (path_is_text "github.com/octocat/hello-world/"
      = Some ("github.com" ++ "/" ++ "octocat" ++ "/" ++ "hello-world" ++ "/")%string ->
      owner_name_of_url path_is_text "github.com/octocat/hello-world/"
      = (Some "octocat"%string, Some "hello-world"%string, [])).
Proof.
  apply (url_needs_three_segments path_is_text "github.com/octocat/hello-world/"
           "github.com" "octocat" "hello-world");
    unfold is_segment; by_evaluation.
Defined.

Lemma truthy_str_nonempty (s : string) : s <> EmptyString -> truthy_str (Some s) = true.
Proof. destruct s; [congruence | reflexivity]. Qed.

(** A URL that gives an owner and a name wins over [REPO_OWNER] and
    [REPO_NAME], whatever these hold; the first part of its path is
    ignored and nothing is printed. *)
Theorem url_takes_precedence (urlparse_path : string -> option string)
    (lines : list string) (env_vars : env_dict)
    (token url path head owner name : string) :
  read_env lines [] = Ok env_vars ->
  dict_get "TOKEN" env_vars = Some token -> token <> EmptyString ->
  dict_get "URL" env_vars = Some url -> url <> EmptyString ->
  urlparse_path url = Some path ->
  str_split "/" (strip_slash path) = [head; owner; name] ->
  owner <> EmptyString -> name <> EmptyString ->
  load_env_variables urlparse_path lines
  = ([], Return (Some owner, Some name, Some token)).
Proof.
  intros Hr Ht Et Hu Eu Hp Hs Eo En.
  unfold load_env_variables, resolve_env, owner_name_of_url.
  rewrite Hr, Hu, Ht, Hp, Hs.
  rewrite !truthy_str_nonempty by assumption. cbn [negb orb].
  rewrite !truthy_str_nonempty by assumption. reflexivity.
Qed.

Lemma url_takes_precedence_witness :
  load_env_variables path_is_text
    (filled_template "someone" "else" "ghp_x" "github.com/octocat/hello-world")
  = ([], Return (Some "octocat"%string, Some "hello-world"%string, Some "ghp_x"%string)).
Proof.
  apply (url_takes_precedence path_is_text
           (filled_template "someone" "else" "ghp_x" "github.com/octocat/hello-world")
           [ ("URL", "github.com/octocat/hello-world"); ("TOKEN", "ghp_x");
             ("REPO_NAME", "else"); ("REPO_OWNER", "someone") ]%string
           "ghp_x" "github.com/octocat/hello-world" "github.com/octocat/hello-world"
           "github.com" "octocat" "hello-world");
    by_evaluation.
Defined.

(** A URL that cannot be used: when the parser raises [ValueError] or the
    path does not split into exactly three parts, the notice is printed
    and owner and name are those of [REPO_OWNER] and [REPO_NAME]; the call
    returns them when they and the token are filled in, and exits after a
    second message otherwise. *)
Theorem unusable_url_falls_back (urlparse_path : string -> option string)
    (lines : list string) (env_vars : env_dict) (url : string) :
  read_env lines [] = Ok env_vars ->
  dict_get "URL" env_vars = Some url -> url <> EmptyString ->
  (urlparse_path url = None
   \/ exists path, urlparse_path url = Some path
                   /\ length (str_split "/" (strip_slash path)) <> 3%nat) ->
  load_env_variables urlparse_path lines
  = if truthy_str (dict_get "TOKEN" env_vars)
       && truthy_str (dict_get "REPO_OWNER" env_vars)
       && truthy_str (dict_get "REPO_NAME" env_vars)
    then ([invalid_url_message],
          Return (dict_get "REPO_OWNER" env_vars, dict_get "REPO_NAME" env_vars,
                  dict_get "TOKEN" env_vars))
    else ([invalid_url_message; please_ensure_message], Exit).
Proof.
  intros Hr Hu Eu Hbad.
  unfold load_env_variables, resolve_env. rewrite Hr, Hu.
  rewrite truthy_str_nonempty by assumption.
  assert (E : owner_name_of_url urlparse_path url = (None, None, [invalid_url_message])).
  { unfold owner_name_of_url. destruct Hbad as [->|(path & -> & Hlen)]; [reflexivity|].
    destruct (str_split "/" (strip_slash path)) as [|a [|b [|c [|d l]]]];
      simpl in Hlen; congruence. }
  rewrite E. cbn [truthy_str negb orb].
  destruct (truthy_str (dict_get "TOKEN" env_vars));
    destruct (truthy_str (dict_get "REPO_OWNER" env_vars));
    destruct (truthy_str (dict_get "REPO_NAME" env_vars)); reflexivity.
Qed.

Lemma unusable_url_falls_back_witness :
  load_env_variables path_is_text
    (filled_template "someone" "else" "ghp_x" "/octocat/hello-world")
  = ([invalid_url_message],
     Return (Some "someone"%string, Some "else"%string, Some "ghp_x"%string)).
Proof.
  apply (unusable_url_falls_back path_is_text
           (filled_template "someone" "else" "ghp_x" "/octocat/hello-world")
           [ ("URL", "/octocat/hello-world"); ("TOKEN", "ghp_x");
             ("REPO_NAME", "else"); ("REPO_OWNER", "someone") ]%string
           "/octocat/hello-world").
  - reflexivity.
  - reflexivity.
  - discriminate.
  - right. exists "/octocat/hello-world"%string. split; [reflexivity | discriminate].
Defined.

(** A URL with an empty owner or name part (two slashes in a row): no
    notice is printed, and both the owner and the name are replaced by
    [REPO_OWNER] and [REPO_NAME], the part the URL did give included. *)
Theorem empty_url_part_falls_back_silently
    (urlparse_path : string -> option string)
    (lines : list string) (env_vars : env_dict)
    (url path head owner name : string) :
  read_env lines [] = Ok env_vars ->
  dict_get "URL" env_vars = Some url -> url <> EmptyString ->
  urlparse_path url = Some path ->
  str_split "/" (strip_slash path) = [head; owner; name] ->
  owner = EmptyString \/ name = EmptyString ->
  load_env_variables urlparse_path lines
  = if truthy_str (dict_get "TOKEN" env_vars)
       && truthy_str (dict_get "REPO_OWNER" env_vars)
       && truthy_str (dict_get "REPO_NAME" env_vars)
    then ([],
          Return (dict_get "REPO_OWNER" env_vars, dict_get "REPO_NAME" env_vars,
                  dict_get "TOKEN" env_vars))
    else ([please_ensure_message], Exit).
Proof.
  intros Hr Hu Eu Hp Hs Hempty.
  unfold load_env_variables, resolve_env, owner_name_of_url.
  rewrite Hr, Hu, Hp, Hs. rewrite truthy_str_nonempty by assumption.
  assert (E : negb (truthy_str (Some owner)) || negb (truthy_str (Some name)) = true).
  { destruct Hempty as [->| ->]; simpl; [reflexivity | apply orb_true_r]. }
  rewrite E.
  destruct (truthy_str (dict_get "TOKEN" env_vars));
    destruct (truthy_str (dict_get "REPO_OWNER" env_vars));
    destruct (truthy_str (dict_get "REPO_NAME" env_vars)); reflexivity.
Qed.

Lemma empty_url_part_falls_back_silently_witness :
  load_env_variables path_is_text
    (filled_template "someone" "else" "ghp_x" "github.com//hello-world")
  = ([], Return (Some "someone"%string, Some "else"%string, Some "ghp_x"%string)).
Proof.
  apply (empty_url_part_falls_back_silently path_is_text
           (filled_template "someone" "else" "ghp_x" "github.com//hello-world")
           [ ("URL", "github.com//hello-world"); ("TOKEN", "ghp_x");
             ("REPO_NAME", "else"); ("REPO_OWNER", "someone") ]%string
           "github.com//hello-world" "github.com//hello-world"
           "github.com" "" "hello-world").
  - reflexivity.
  - reflexivity.
  - discriminate.
  - reflexivity.
  - reflexivity.
  - left. reflexivity.
Defined.
